(** * backuprunner: retention policy, storage backends and orchestrator

    A shallow embedding of the Go package [backuprunner]:
    - [utils.go]          : [applyRetentionPolicy]
    - [storage_local.go]  : [LocalStorage] ([Upload], [List], [Delete]), [isBackupFile]
    - the S3 backend      : [S3Storage] ([List], [Delete], [getKey])
    - the service loop    : [Run]
    - the [Backup] interface. *)

From Stdlib Require Import ZArith Ascii.
From stdpp Require Import gmap strings list sorting.

Local Open Scope string_scope.
Local Open Scope Z_scope.

(** ** Go strings

    A Go string is a sequence of bytes; [string] (a list of 8-bit
    characters) is the same data.  [len], slicing and the two [strings]
    helpers are written as the Go library has them. *)

Definition len_string (s : string) : nat := String.length s.

(** [strings.HasPrefix]:
    [len(s) >= len(prefix) && s[:len(prefix)] == prefix]. *)
Definition HasPrefix (s prefix : string) : bool :=
  (len_string prefix <=? len_string s)%nat &&
  String.eqb (String.substring 0 (len_string prefix) s) prefix.

(** [strings.HasSuffix]:
    [len(s) >= len(suffix) && s[len(s)-len(suffix):] == suffix]. *)
Definition HasSuffix (s suffix : string) : bool :=
  (len_string suffix <=? len_string s)%nat &&
  String.eqb
    (String.substring (len_string s - len_string suffix) (len_string suffix) s)
    suffix.

(** [isBackupFile] (storage_local.go). *)
Definition isBackupFile (name : string) : bool :=
  HasPrefix name "pg-backup_" &&
  (HasSuffix name ".dump" ||
   HasSuffix name ".sql" ||
   HasSuffix name ".sql.gz" ||
   HasSuffix name ".tar").

(** [sort.Strings]: ascending byte-wise order.  The result of sorting
    strings is the unique ascending arrangement of the input (equal strings
    are indistinguishable), so any correct sorting algorithm models it. *)
Definition sort_Strings (l : list string) : list string :=
  merge_sort String.le l.

(** Strictly ascending: ascending and different. *)
Definition string_lt (s t : string) : Prop := strict String.le s t.

(** ** Go [int]

    [int] is a 64-bit two's-complement integer; arithmetic wraps. *)

Definition int_min : Z := - 2 ^ 63.
Definition int_max : Z := 2 ^ 63 - 1.
Definition wrap_int (z : Z) : Z := (z + 2 ^ 63) mod 2 ^ 64 - 2 ^ 63.
Definition int_sub (a b : Z) : Z := wrap_int (a - b).

(** [len(l)] of a slice. *)
Definition len {A} (l : list A) : Z := Z.of_nat (length l).

(** ** Errors, results and contexts *)

Inductive error : Type :=
| ErrNew (msg : string)                   (* an error value of the OS or a library *)
| ErrWrap (msg : string) (cause : error)  (* [fmt.Errorf("msg: %w", cause)] *)
| ErrFmt (msg : string) (cause : error).  (* [fmt.Errorf("msg: %v", cause)] *)

(** A Go [(value, error)] return: [inl v] when [err == nil]. *)
Definition Result (A : Type) : Type := A + error.

(** [context.Background()] has no deadline; [context.WithTimeout(parent, d)]
    is cancelled once [d] nanoseconds have passed. *)
Inductive Context : Type :=
| Background
| WithTimeout (parent : Context) (d : Z).

Definition hasDeadline (ctx : Context) : bool :=
  match ctx with
  | Background => false
  | WithTimeout _ _ => true
  end.

(** ** Effects: state, trace of events, panics

    A Go function that talks to a stateful collaborator is a state
    transformer that also records, in order, the calls it makes and the
    lines it logs.  A run-time panic stops it. *)

Inductive outcome (A : Type) : Type :=
| Returns (a : A)
| Panics (msg : string).
Arguments Returns {A} a.
Arguments Panics {A} msg.

Definition M (St E A : Type) : Type := St -> outcome A * St * list E.

Global Instance M_ret {St E} : MRet (M St E) :=
  fun A a st => (Returns a, st, []).

Global Instance M_bind {St E} : MBind (M St E) :=
  fun A B f m st =>
    match m st with
    | (Returns a, st1, tr1) =>
        match f a st1 with
        | (o, st2, tr2) => (o, st2, (tr1 ++ tr2)%list)
        end
    | (Panics msg, st1, tr1) => (Panics msg, st1, tr1)
    end.

Definition emit {St E} (e : E) : M St E unit :=
  fun st => (Returns tt, st, [e]).

Definition panic {St E A} (msg : string) : M St E A :=
  fun st => (Panics msg, st, []).

(** [xs[i]]: a run-time panic when [i] is out of range. *)
Definition index {St E A} (xs : list A) (i : Z) : M St E A :=
  if (i <? 0) then panic "index out of range"
  else match xs !! Z.to_nat i with
       | Some x => mret x
       | None => panic "index out of range"
       end.

Definition result_of {St E A} (r : outcome A * St * list E) : outcome A := r.1.1.
Definition state_of {St E A} (r : outcome A * St * list E) : St := r.1.2.
Definition trace_of {St E A} (r : outcome A * St * list E) : list E := r.2.

(** ** The [Storage] interface *)

(** Modelled from the spec: the declaration of the [Storage] interface is
    not among the sources; the methods kept here are the ones the retention
    pass and the service loop call on a [Storage] value ([List], [Delete],
    [Type]), with the signatures both backends give them.  A handle
    together with the store behind it is a state of type [St]; a method
    returns its result and the state it leaves. *)
Class Storage (St : Type) : Type := {
  List : Context -> St -> Result (list string) * St;
  Delete : Context -> string -> St -> option error * St;
  Type_ : St -> string;
}.

(** ** utils.go: [applyRetentionPolicy] *)

Inductive LogLine : Type :=
| LogApplying (retentionCount : Z)   (* "Applying retention policy (keeping %d backups)..." *)
| LogWithinLimit (count : Z)         (* "Current backup count (%d) within retention limit" *)
| LogDeleting (name : string)        (* "Deleting old backup: %s" *)
| LogDeleteFailed (name : string) (err : error)
                                     (* "Warning: failed to delete %s: %v" *)
| LogApplied (deleted : Z).          (* "Retention policy applied, deleted %d old backup(s)" *)

Inductive Event : Type :=
| EvLog (l : LogLine)
| EvList (r : Result (list string))
| EvDelete (name : string) (r : option error).

Section RetentionPolicy.
Context {St : Type} `{!Storage St}.

Definition callList (ctx : Context) : M St Event (Result (list string)) :=
  fun st => let '(r, st1) := List ctx st in (Returns r, st1, [EvList r]).

Definition callDelete (ctx : Context) (name : string)
  : M St Event (option error) :=
  fun st => let '(r, st1) := Delete ctx name st in
            (Returns r, st1, [EvDelete name r]).

(** The body of [for i := 0; i < toDelete; i++], run for the [n]
    iterations that remain, the next one at index [i]. *)
Fixpoint deleteLoop (ctx : Context) (backups : list string)
         (n : nat) (i : Z) : M St Event unit :=
  match n with
  | O => mret tt
  | S n' =>
      name ← index backups i;
      emit (EvLog (LogDeleting name));;
      err ← callDelete ctx name;
      match err with
      | Some e => emit (EvLog (LogDeleteFailed name e))
      | None => mret tt
      end;;
      deleteLoop ctx backups n' (i + 1)
  end.

Definition applyRetentionPolicy (ctx : Context) (retentionCount : Z)
  : M St Event (option error) :=
  emit (EvLog (LogApplying retentionCount));;
  r ← callList ctx;
  match r with
  | inr err => mret (Some (ErrWrap "failed to list backups" err))
  | inl backups =>
      if len backups <=? retentionCount then
        emit (EvLog (LogWithinLimit (len backups)));;
        mret None
      else
        (* Delete oldest backups (list is sorted oldest first) *)
        let toDelete := int_sub (len backups) retentionCount in
        deleteLoop ctx backups (Z.to_nat toDelete) 0;;
        emit (EvLog (LogApplied toDelete));;
        mret None
  end.
End RetentionPolicy.

(** What a trace says: the names [Delete] was called with, in call order;
    the calls that failed; the warnings logged. *)
Definition deleteCalls (tr : list Event) : list string :=
  omap (fun e => match e with EvDelete n _ => Some n | _ => None end) tr.

Definition failedDeletes (tr : list Event) : list (string * error) :=
  omap (fun e => match e with
                 | EvDelete n (Some err) => Some (n, err)
                 | _ => None
                 end) tr.

Definition deleteWarnings (tr : list Event) : list (string * error) :=
  omap (fun e => match e with
                 | EvLog (LogDeleteFailed n err) => Some (n, err)
                 | _ => None
                 end) tr.

(** ** storage_local.go: [LocalStorage] *)

(** An [os.DirEntry]: [entry.Name()] and [entry.IsDir()]. *)
Record DirEntry : Type := { Name : string; IsDir : bool }.

(** A [LocalStorage] handle together with the directory it is bound to.
    [dir] maps the name of every entry of [basePath] to whether it is a
    directory (names in a directory are unique); the two error fields say
    what the operating system answers: [readDirErr] is the error
    [os.ReadDir(basePath)] fails with, [removeErr name] the error
    [os.Remove] refuses to remove the existing entry [name] with. *)
Record LocalStorage : Type := {
  basePath : string;
  dir : gmap string bool;
  readDirErr : option error;
  removeErr : string -> option error;
}.

(** [os.ReadDir]: all entries of the directory, sorted by filename. *)
Definition ReadDir (s : LocalStorage) : Result (list DirEntry) :=
  match readDirErr s with
  | Some err => inr err
  | None =>
      inl ((fun n => {| Name := n; IsDir := default false (dir s !! n) |})
             <$> sort_Strings (map_to_list (dir s)).*1)
  end.

(** [os.Remove(filepath.Join(basePath, name))] for an entry name [name]
    (a name without path separators, as [List] returns them). *)
Definition Remove (s : LocalStorage) (name : string)
  : option error * LocalStorage :=
  match dir s !! name with
  | None => (Some (ErrNew "no such file or directory"), s)
  | Some _ =>
      match removeErr s name with
      | Some err => (Some err, s)
      | None =>
          (None, {| basePath := basePath s;
                    dir := delete name (dir s);
                    readDirErr := readDirErr s;
                    removeErr := removeErr s |})
      end
  end.

(** The loop of [List]: [backups = append(backups, entry.Name())] for the
    entries that pass the test. *)
Definition collectBackups (entries : list DirEntry) : list string :=
  foldl (fun backups entry =>
           if negb (IsDir entry) && isBackupFile (Name entry)
           then (backups ++ [Name entry])%list
           else backups)
        [] entries.

Definition LocalStorage_List (ctx : Context) (s : LocalStorage)
  : Result (list string) * LocalStorage :=
  match ReadDir s with
  | inr err => (inr (ErrWrap "failed to read backup directory" err), s)
  | inl entries =>
      (* Sort by name (which includes timestamp, so oldest first) *)
      (inl (sort_Strings (collectBackups entries)), s)
  end.

Definition LocalStorage_Delete (ctx : Context) (backupName : string)
           (s : LocalStorage) : option error * LocalStorage :=
  match Remove s backupName with
  | (Some err, s1) => (Some (ErrWrap "failed to delete backup" err), s1)
  | (None, s1) => (None, s1)
  end.

Definition LocalStorage_Type (s : LocalStorage) : string := "local".

Global Instance LocalStorage_Storage : Storage LocalStorage := {|
  List := LocalStorage_List;
  Delete := LocalStorage_Delete;
  Type_ := LocalStorage_Type;
|}.

Definition LocalStorage_ApplyRetentionPolicy (ctx : Context)
           (retentionCount : Z) : M LocalStorage Event (option error) :=
  applyRetentionPolicy ctx retentionCount.

(** *** [Upload]: the copy raced against cancellation

    [Upload] starts the copy in a goroutine that sends its result on the
    one-slot channel [done], and waits in a [select] on [ctx.Done()] and
    [done].  What the [select] sees is decided by the scheduler: each of the
    two channels is ready when the [select] is reached, becomes ready while
    it waits, or never does. *)

Inductive readiness : Type := ReadyNow | ReadyLater | ReadyNever.

Inductive SelectCase : Type := CaseCtxDone | CaseCopyDone.

(** Go's [select] on two receive cases: when several can proceed one is
    chosen at random ([chosen]); when none can it blocks until the first
    becomes ready (again [chosen] when both will); [None] when it blocks
    for ever. *)
Definition select2 (ctxDone done : readiness) (chosen : SelectCase)
  : option SelectCase :=
  match ctxDone, done with
  | ReadyNow, ReadyNow => Some chosen
  | ReadyNow, _ => Some CaseCtxDone
  | _, ReadyNow => Some CaseCopyDone
  | ReadyLater, ReadyLater => Some chosen
  | ReadyLater, ReadyNever => Some CaseCtxDone
  | ReadyNever, ReadyLater => Some CaseCopyDone
  | ReadyNever, ReadyNever => None
  end.

(** One call of [Upload] as the environment plays it: the results of
    [os.Open], [os.Create] and [io.Copy], the context ([ctxDone]: when
    [ctx.Done()] is closed; [ctxErr]: [ctx.Err()] from then on) and the
    interleaving ([copyDone]: when the goroutine has sent on [done];
    [chosen]: the choice of the [select]). *)
Record UploadRun : Type := {
  openErr : option error;
  createErr : option error;
  copyErr : option error;
  ctxDone : readiness;
  ctxErr : error;
  copyDone : readiness;
  chosen : SelectCase;
}.

Inductive UploadOutcome : Type :=
| UploadReturns (err : option error)
| UploadBlocks.

Definition LocalStorage_Upload (run : UploadRun)
           (sourcePath backupName : string) (s : LocalStorage)
  : UploadOutcome * LocalStorage :=
  match openErr run with
  | Some err => (UploadReturns (Some (ErrWrap "failed to open source file" err)), s)
  | None =>
      match createErr run with
      | Some err =>
          (UploadReturns (Some (ErrWrap "failed to create destination file" err)), s)
      | None =>
          (* [os.Create] has made (or truncated) the destination file *)
          let s1 := {| basePath := basePath s;
                       dir := <[backupName := false]> (dir s);
                       readDirErr := readDirErr s;
                       removeErr := removeErr s |} in
          match select2 (ctxDone run) (copyDone run) (chosen run) with
          | Some CaseCtxDone => (UploadReturns (Some (ctxErr run)), s1)
          | Some CaseCopyDone =>
              match copyErr run with
              | Some err =>
                  (UploadReturns (Some (ErrWrap "failed to copy file" err)), s1)
              | None => (UploadReturns None, s1)
              end
          | None => (UploadBlocks, s1)
          end
      end
  end.

(** ** The S3 backend: [S3Storage] *)

Definition isPathSeparator (c : Ascii.ascii) : bool := Ascii.eqb c "/"%char.

Fixpoint dropSeparators (l : list Ascii.ascii) : list Ascii.ascii :=
  match l with
  | c :: r => if isPathSeparator c then dropSeparators r else l
  | [] => []
  end.

(** The part of a path after its last separator ([cur]: the element read
    so far). *)
Fixpoint afterLastSeparator (l cur : list Ascii.ascii) : list Ascii.ascii :=
  match l with
  | [] => cur
  | c :: r =>
      if isPathSeparator c then afterLastSeparator r []
      else afterLastSeparator r (cur ++ [c])%list
  end.

(** [filepath.Base] on Unix: the last element of the path, trailing
    slashes removed; ["."] for the empty path, ["/"] for slashes only. *)
Definition Base (path : string) : string :=
  if String.eqb path "" then "."
  else
    let stripped :=
      reverse (dropSeparators (reverse (String.list_ascii_of_string path))) in
    let last := afterLastSeparator stripped [] in
    match last with
    | [] => "/"
    | _ => String.string_of_list_ascii last
    end.

(** [strings.TrimSuffix]. *)
Definition TrimSuffix (s suffix : string) : string :=
  if HasSuffix s suffix
  then String.substring 0 (len_string s - len_string suffix) s
  else s.

(** An [S3Storage] handle together with the bucket behind it: [objects]
    are the keys stored in the bucket; the error fields say what the
    service answers. *)
Record S3Storage : Type := {
  bucket : string;
  backupPrefix : string;
  objects : list string;
  listObjectsErr : option error;
  deleteObjectErr : string -> option error;
}.

(** The pages [ListObjectsV2] yields for a prefix (each one a result of
    [paginator.NextPage]): the keys of the bucket that start with the
    prefix, here in one page; [obj.Key] is a pointer, hence [option]. *)
Definition ListObjectsV2 (s : S3Storage) (prefix : string)
  : list (Result (list (option string))) :=
  match listObjectsErr s with
  | Some err => [inr err]
  | None => [inl (Some <$> filter (fun k => HasPrefix k prefix = true) (objects s))]
  end.

(** [DeleteObject]: the key is gone afterwards (no error for a key that
    was not there). *)
Definition DeleteObject (s : S3Storage) (key : string)
  : option error * S3Storage :=
  match deleteObjectErr s key with
  | Some err => (Some err, s)
  | None =>
      (None, {| bucket := bucket s;
                backupPrefix := backupPrefix s;
                objects := filter (fun k => k <> key) (objects s);
                listObjectsErr := listObjectsErr s;
                deleteObjectErr := deleteObjectErr s |})
  end.

Definition S3Storage_getKey (s : S3Storage) (backupName : string) : string :=
  if String.eqb (backupPrefix s) "" then backupName
  else TrimSuffix (backupPrefix s) "/" +:+ "/" +:+ backupName.

(** The inner loop of [List] over [page.Contents]. *)
Definition collectPage (backups : list string) (contents : list (option string))
  : list string :=
  foldl (fun backups obj =>
           match obj with
           | Some key =>
               let name := Base key in
               if isBackupFile name then (backups ++ [name])%list else backups
           | None => backups
           end)
        backups contents.

(** [for paginator.HasMorePages() { ... }]. *)
Fixpoint collectPages (pages : list (Result (list (option string))))
         (backups : list string) : Result (list string) :=
  match pages with
  | [] => inl backups
  | inr err :: _ => inr (ErrWrap "failed to list S3 objects" err)
  | inl contents :: rest => collectPages rest (collectPage backups contents)
  end.

Definition S3Storage_List (ctx : Context) (s : S3Storage)
  : Result (list string) * S3Storage :=
  let prefix := backupPrefix s in
  let prefix :=
    if negb (String.eqb prefix "") && negb (HasSuffix prefix "/")
    then prefix +:+ "/" else prefix in
  match collectPages (ListObjectsV2 s prefix) [] with
  | inr err => (inr err, s)
  | inl backups =>
      (* Sort by name (oldest first) *)
      (inl (sort_Strings backups), s)
  end.

Definition S3Storage_Delete (ctx : Context) (backupName : string)
           (s : S3Storage) : option error * S3Storage :=
  let key := S3Storage_getKey s backupName in
  match DeleteObject s key with
  | (Some err, s1) => (Some (ErrWrap "failed to delete S3 object" err), s1)
  | (None, s1) => (None, s1)
  end.

Definition S3Storage_Type (s : S3Storage) : string := "s3".

Global Instance S3Storage_Storage : Storage S3Storage := {|
  List := S3Storage_List;
  Delete := S3Storage_Delete;
  Type_ := S3Storage_Type;
|}.

Definition S3Storage_ApplyRetentionPolicy (ctx : Context)
           (retentionCount : Z) : M S3Storage Event (option error) :=
  applyRetentionPolicy ctx retentionCount.

(** ** The service loop: [Run]  *)

(** Modelled from the spec: the declaration of the [Config] struct is not
    among the sources; the fields are the ones [Run] reads (schedule
    expression, storage selection, retention count, run-on-startup flag,
    per-run timeout in minutes). *)
Record Config : Type := {
  BackupCron : string;
  StorageType : string;
  RetentionCount : Z;
  BackupOnStart : bool;
  BackupTimeout : Z;
}.

(** The [Backup] interface.  A value of type [B] is the backup producer
    with everything it owns; the methods that can do work return the state
    they leave. *)
Module Backup.
Class t (Store B : Type) : Type := {
  Name : B -> string;
  Config : B -> Result Config * B;
  ExtraConfigLogInfo : B -> list string;
  SetStorage : Store -> B -> option error * B;
  TestConnection : Context -> B -> option error * B;
  Run : Context -> B -> option error * B;
}.
End Backup.

(** [time.Minute] in nanoseconds, and
    [time.Duration(minutes) * time.Minute] (an [int64] product). *)
Definition Minute : Z := 60000000000.
Definition minutes (n : Z) : Z := wrap_int (wrap_int n * Minute).

Inductive RunLog : Type :=
| LogStarting (name : string)       (* "Starting %s Backup Service..." *)
| LogConfigLoaded                   (* "Configuration loaded:" *)
| LogExtra (line : string)          (* "  %s" *)
| LogSchedule (cron : string)       (* "  Backup schedule: %s" *)
| LogStorageType (ty : string)      (* "  Storage type: %s" *)
| LogRetention (count : Z)          (* "  Retention count: %d" *)
| LogStorageInitialized (ty : string)  (* "Storage initialized: %s" *)
| LogConnectionVerified             (* "PostgreSQL connection verified" *)
| LogInitialBackup                  (* "Running initial backup on startup..." *)
| LogInitialBackupFailed (err : error) (* "Initial backup failed: %v" *)
| LogCronTriggered                  (* "Cron triggered backup job" *)
| LogBackupFailed (err : error)     (* "Backup failed: %v" *)
| LogCronRegistered (id : Z)        (* "Cron job registered with ID: %d" *)
| LogCronStarted                    (* "Cron scheduler started, waiting for scheduled jobs..." *)
| LogNextBackup                     (* "Next backup scheduled at: %s" *)
| LogSignal (sig : string)          (* "Received signal %s, shutting down..." *)
| LogShutdownComplete.              (* "Shutdown complete" *)

(** What [Run] does to the outside, in order. *)
Inductive RunEvent : Type :=
| RLog (l : RunLog)
| RConfig
| RNew
| RSetStorage
| RTestConnection (ctx : Context) (r : option error)
| RRun (ctx : Context) (r : option error)     (* a call of [b.Run(ctx)] *)
| RCronAddFunc (spec : string) (r : option error)
| RCronStart
| RSignalWait
| RCronStop.

(** What surrounds [Run]: the storage factory [New], the cron library and
    the operating system. *)
Record World (Store : Type) : Type := {
  (** Modelled from the spec: the storage construction factory [New(cfg)]
      is not among the sources; given the configuration it returns a bound
      storage handle or a construction-time error. *)
  New : Config -> Result Store;
  (** [c.AddFunc(spec, job)]: an error when [spec] does not parse. *)
  cronParseErr : string -> option error;
  (** how many times the scheduler fires the job between [c.Start()] and
      the termination signal *)
  ticks : nat;
  (** the signal received *)
  sig : string;
}.
Arguments New {Store} _ _.
Arguments cronParseErr {Store} _ _.
Arguments ticks {Store} _.
Arguments sig {Store} _.

Section Orchestrator.
Context {Store B : Type} `{!Storage Store} `{!Backup.t Store B}.
Variable w : World Store.

Definition callConfig : M B RunEvent (Result Config) :=
  fun b => let '(r, b1) := Backup.Config b in (Returns r, b1, [RConfig]).

Definition callSetStorage (store : Store) : M B RunEvent (option error) :=
  fun b => let '(r, b1) := Backup.SetStorage store b in
           (Returns r, b1, [RSetStorage]).

Definition callTestConnection (ctx : Context) : M B RunEvent (option error) :=
  fun b => let '(r, b1) := Backup.TestConnection ctx b in
           (Returns r, b1, [RTestConnection ctx r]).

Definition callRun (ctx : Context) : M B RunEvent (option error) :=
  fun b => let '(r, b1) := Backup.Run ctx b in (Returns r, b1, [RRun ctx r]).

Definition getName : M B RunEvent string :=
  fun b => (Returns (Backup.Name b), b, []).

Definition getExtraConfigLogInfo : M B RunEvent (list string) :=
  fun b => (Returns (Backup.ExtraConfigLogInfo b), b, []).

Fixpoint logExtra (lines : list string) : M B RunEvent unit :=
  match lines with
  | [] => mret tt
  | v :: rest => emit (RLog (LogExtra v));; logExtra rest
  end.

(** The function handed to [c.AddFunc]. *)
Definition cronJob (cfg : Config) : M B RunEvent unit :=
  emit (RLog LogCronTriggered);;
  let ctx := WithTimeout Background (minutes (BackupTimeout cfg)) in
  err ← callRun ctx;
  match err with
  | Some e => emit (RLog (LogBackupFailed e))
  | None => mret tt
  end.

(** The scheduler firing the job [n] times.  The jobs run in goroutines
    of the scheduler; they are taken here in the order they fire. *)
Fixpoint fire (n : nat) (job : M B RunEvent unit) : M B RunEvent unit :=
  match n with
  | O => mret tt
  | S n' => job;; fire n' job
  end.

Definition Run : M B RunEvent (option error) :=
  name ← getName;
  emit (RLog (LogStarting name));;
  (* Load configuration *)
  rcfg ← callConfig;
  match rcfg with
  | inr err => mret (Some (ErrFmt "failed to load configuration" err))
  | inl cfg =>
      emit (RLog LogConfigLoaded);;
      extra ← getExtraConfigLogInfo;
      logExtra extra;;
      emit (RLog (LogSchedule (BackupCron cfg)));;
      emit (RLog (LogStorageType (StorageType cfg)));;
      emit (RLog (LogRetention (RetentionCount cfg)));;
      (* Initialize storage *)
      emit RNew;;
      match New w cfg with
      | inr err => mret (Some (ErrFmt "failed to initialize storage" err))
      | inl store =>
          emit (RLog (LogStorageInitialized (Type_ store)));;
          (* Set storage *)
          err ← callSetStorage store;
          match err with
          | Some e => mret (Some (ErrFmt "failed to set storage" e))
          | None =>
              (* Test PostgreSQL connection *)
              err ← callTestConnection Background;
              match err with
              | Some e =>
                  mret (Some (ErrFmt "failed to connect to PostgreSQL" e))
              | None =>
                  emit (RLog LogConnectionVerified);;
                  (* Run backup on start if configured *)
                  (if BackupOnStart cfg then
                     emit (RLog LogInitialBackup);;
                     err ← callRun Background;
                     match err with
                     | Some e => emit (RLog (LogInitialBackupFailed e))
                     | None => mret tt
                     end
                   else mret tt);;
                  (* Add backup job *)
                  let r := cronParseErr w (BackupCron cfg) in
                  emit (RCronAddFunc (BackupCron cfg) r);;
                  match r with
                  | Some e => mret (Some (ErrFmt "failed to add cron job" e))
                  | None =>
                      emit (RLog (LogCronRegistered 1));;
                      (* Start cron scheduler *)
                      emit RCronStart;;
                      emit (RLog LogCronStarted);;
                      (* Print next scheduled run time: [c.Entries()] holds
                         the entry just added *)
                      emit (RLog LogNextBackup);;
                      (* Wait for shutdown signal *)
                      emit RSignalWait;;
                      fire (ticks w) (cronJob cfg);;
                      emit (RLog (LogSignal (sig w)));;
                      (* Stop cron scheduler *)
                      emit RCronStop;;
                      emit (RLog LogShutdownComplete);;
                      mret None
                  end
              end
          end
      end
  end.
End Orchestrator.

(** The contexts [b.Run] was called with, in call order; the scheduler
    calls; the failures of [b.Run] and the lines logged for them. *)
Definition runContexts (tr : list RunEvent) : list Context :=
  omap (fun e => match e with RRun ctx _ => Some ctx | _ => None end) tr.

Definition runFailures (tr : list RunEvent) : list error :=
  omap (fun e => match e with RRun _ (Some err) => Some err | _ => None end) tr.

Definition runFailureLogs (tr : list RunEvent) : list error :=
  omap (fun e => match e with
                 | RLog (LogInitialBackupFailed err) => Some err
                 | RLog (LogBackupFailed err) => Some err
                 | _ => None
                 end) tr.

Definition isCronEvent (e : RunEvent) : bool :=
  match e with
  | RCronAddFunc _ _ | RCronStart | RCronStop => true
  | _ => false
  end.

(** The calls made on the cron scheduler, in order. *)
Definition cronCalls (tr : list RunEvent) : list RunEvent :=
  omap (fun e => if isCronEvent e then Some e else None) tr.

(** ** Auxiliary definitions used in the statements *)

Section DeleteAll.
Context {St : Type} `{!Storage St}.

(** What the deletion loop does, told over the names it visits: for each
    name the line logged, the [Delete] call, and the warning when the call
    failed. *)
Fixpoint deleteAll (ctx : Context) (names : list string) (s : St)
  : St * list Event :=
  match names with
  | [] => (s, [])
  | name :: rest =>
      let '(r, s1) := Delete ctx name s in
      let '(s2, tr) := deleteAll ctx rest s1 in
      (s2, (EvLog (LogDeleting name) :: EvDelete name r ::
            match r with
            | Some e => [EvLog (LogDeleteFailed name e)]
            | None => []
            end ++ tr)%list)
  end.
End DeleteAll.

(** The names of a listing that a pass with [retentionCount] schedules for
    deletion, and the ones it keeps. *)
Definition scheduled (backups : list string) (retentionCount : Z) : list string :=
  take (Z.to_nat (len backups - retentionCount)) backups.

Definition kept (backups : list string) (retentionCount : Z) : list string :=
  drop (Z.to_nat (len backups - retentionCount)) backups.

(** The test of the loop of [List], told on the name of an entry. *)
Definition isArtifact (s : LocalStorage) (n : string) : bool :=
  negb (default false (dir s !! n)) && isBackupFile n.

(** The listing of a readable directory. *)
Definition listing (s : LocalStorage) : list string :=
  sort_Strings
    (filter (fun n => isArtifact s n = true)
            (sort_Strings (map_to_list (dir s)).*1)).

(** ** Concrete inputs *)

Definition EPERM : error := ErrNew "operation not permitted".
Definition Canceled : error := ErrNew "context canceled".

(** A backup directory with three artifacts and a foreign file. *)
Definition local3 : LocalStorage := {|
  basePath := "/backups";
  dir := list_to_map [("pg-backup_2.dump", false); ("readme.txt", false);
                      ("pg-backup_3.dump", false); ("pg-backup_1.dump", false)];
  readDirErr := None;
  removeErr := fun _ => None;
|}.

(** The same directory where the oldest artifact cannot be removed. *)
Definition local3_locked : LocalStorage := {|
  basePath := "/backups";
  dir := dir local3;
  readDirErr := None;
  removeErr := fun n => if String.eqb n "pg-backup_1.dump" then Some EPERM else None;
|}.

(** A directory that cannot be read. *)
Definition local_unreadable : LocalStorage := {|
  basePath := "/backups";
  dir := dir local3;
  readDirErr := Some EPERM;
  removeErr := fun _ => None;
|}.

(** A directory holding a sub-directory with the name of an artifact. *)
Definition local_subdir : LocalStorage := {|
  basePath := "/backups";
  dir := {[ "pg-backup_2024-01-01.dump" := true ]};
  readDirErr := None;
  removeErr := fun _ => None;
|}.

(** A bucket holding two objects with the same base name under different
    key prefixes. *)
Definition s3_nested : S3Storage := {|
  bucket := "backups";
  backupPrefix := "";
  objects := ["2023/pg-backup_1.dump"; "2024/pg-backup_1.dump"];
  listObjectsErr := None;
  deleteObjectErr := fun _ => None;
|}.

(** An upload whose copy has finished when the [select] is reached, under a
    context that is already cancelled, the [select] taking the copy. *)
Definition upload_copy_first : UploadRun := {|
  openErr := None;
  createErr := None;
  copyErr := None;
  ctxDone := ReadyNow;
  ctxErr := Canceled;
  copyDone := ReadyNow;
  chosen := CaseCopyDone;
|}.

(** An upload under a cancelled context whose copy is still running. *)
Definition upload_copy_pending : UploadRun := {|
  openErr := None;
  createErr := None;
  copyErr := None;
  ctxDone := ReadyNow;
  ctxErr := Canceled;
  copyDone := ReadyLater;
  chosen := CaseCopyDone;
|}.

(** A scripted backup producer: the answers of its methods are fixed in
    advance, [Run] taking the next of [runResults] at each call. *)
Record Scripted : Type := {
  configResult : Result Config;
  setStorageResult : option error;
  testConnectionResult : option error;
  runResults : list (option error);
}.

Global Instance Scripted_Backup {Store : Type} : Backup.t Store Scripted := {|
  Backup.Name := fun _ => "PostgreSQL";
  Backup.Config := fun b => (configResult b, b);
  Backup.ExtraConfigLogInfo := fun _ => [];
  Backup.SetStorage := fun _ b => (setStorageResult b, b);
  Backup.TestConnection := fun _ b => (testConnectionResult b, b);
  Backup.Run := fun _ b =>
    match runResults b with
    | [] => (None, b)
    | r :: rest =>
        (r, {| configResult := configResult b;
               setStorageResult := setStorageResult b;
               testConnectionResult := testConnectionResult b;
               runResults := rest |})
    end;
|}.

Definition config_on_start : Config := {|
  BackupCron := "0 3 * * *";
  StorageType := "local";
  RetentionCount := 2;
  BackupOnStart := true;
  BackupTimeout := 30;
|}.

Definition world2 : World LocalStorage := {|
  New := fun _ => inl local3;
  cronParseErr := fun _ => None;
  ticks := 2;
  sig := "terminated";
|}.

(** A producer that is ready and whose first two runs fail, the third
    succeeding. *)
Definition producer_failing : Scripted := {|
  configResult := inl config_on_start;
  setStorageResult := None;
  testConnectionResult := None;
  runResults := [Some (ErrNew "pg_dump failed"); Some (ErrNew "pg_dump failed"); None];
|}.

(** A producer whose connection probe fails. *)
Definition producer_unreachable : Scripted := {|
  configResult := inl config_on_start;
  setStorageResult := None;
  testConnectionResult := Some (ErrNew "connection refused");
  runResults := [];
|}.

(** ** More concrete inputs *)

(** The directory [local3] once its oldest artifact has been removed. *)
Definition local2 : LocalStorage := {|
  basePath := "/backups";
  dir := delete "pg-backup_1.dump" (dir local3);
  readDirErr := None;
  removeErr := fun _ => None;
|}.

(** An upload under a context that is never cancelled, whose copy
    completes. *)
Definition upload_plain : UploadRun := {|
  openErr := None;
  createErr := None;
  copyErr := None;
  ctxDone := ReadyNever;
  ctxErr := Canceled;
  copyDone := ReadyLater;
  chosen := CaseCtxDone;
|}.

(** The prefix [S3Storage.List] asks the service for: [backupPrefix],
    with a ["/"] added when it is not empty and does not end in one (the
    first lines of [List]). *)
Definition S3Storage_listPrefix (s : S3Storage) : string :=
  let prefix := backupPrefix s in
  if negb (String.eqb prefix "") && negb (HasSuffix prefix "/")
  then prefix +:+ "/" else prefix.

(** A name without a path separator. *)
Definition plainName (name : string) : Prop :=
  name <> "" /\
  Forall (fun c => isPathSeparator c = false) (String.list_ascii_of_string name).

(** A bucket shared by two series of backups, the handle bound to the
    prefix ["daily"]. *)
Definition s3_daily : S3Storage := {|
  bucket := "backups";
  backupPrefix := "daily";
  objects := ["daily/pg-backup_2.dump"; "daily/notes.txt";
              "daily/pg-backup_1.dump"; "weekly/pg-backup_9.dump"];
  listObjectsErr := None;
  deleteObjectErr := fun _ => None;
|}.

(** The results of the connection probes made, in call order. *)
Definition probeResults (tr : list RunEvent) : list (option error) :=
  omap (fun e => match e with RTestConnection _ r => Some r | _ => None end) tr.

(** A producer whose configuration does not load. *)
Definition producer_no_config : Scripted := {|
  configResult := inr (ErrNew "BACKUP_CRON is required");
  setStorageResult := None;
  testConnectionResult := None;
  runResults := [];
|}.

(** A world whose schedule expression does not parse. *)
Definition world_bad_cron : World LocalStorage := {|
  New := fun _ => inl local3;
  cronParseErr := fun _ => Some (ErrNew "expected exactly 5 fields");
  ticks := 2;
  sig := "terminated";
|}.

(** A configuration without a run on startup, and a producer with it. *)
Definition config_scheduled_only : Config := {|
  BackupCron := "0 3 * * *";
  StorageType := "local";
  RetentionCount := 2;
  BackupOnStart := false;
  BackupTimeout := 30;
|}.

Definition producer_scheduled_only : Scripted := {|
  configResult := inl config_scheduled_only;
  setStorageResult := None;
  testConnectionResult := None;
  runResults := [Some (ErrNew "pg_dump failed"); None];
|}.

(** * Properties *)

(** ** Sanity checks of the embedding on concrete inputs *)

Example isBackupFile_dump : isBackupFile "pg-backup_2024-01-01.dump" = true.
Proof. reflexivity. Qed.
Example isBackupFile_readme : isBackupFile "readme.txt" = false.
Proof. reflexivity. Qed.
Example isBackupFile_tmp : isBackupFile "pg-backup_2024-01-01.dump.tmp" = false.
Proof. reflexivity. Qed.
Example sort_Strings_ex :
  sort_Strings ["pg-backup_3.sql"; "pg-backup_1.sql"; "pg-backup_2.sql"]
  = ["pg-backup_1.sql"; "pg-backup_2.sql"; "pg-backup_3.sql"].
Proof. vm_compute. reflexivity. Qed.

Example local3_List :
  (List Background local3).1
  = inl ["pg-backup_1.dump"; "pg-backup_2.dump"; "pg-backup_3.dump"].
Proof. vm_compute. reflexivity. Qed.

Example local3_pass_deletes_oldest :
  deleteCalls (trace_of (applyRetentionPolicy Background 2 local3))
  = ["pg-backup_1.dump"].
Proof. vm_compute. reflexivity. Qed.

Example local3_pass_keeps_newest :
  (List Background (state_of (applyRetentionPolicy Background 2 local3))).1
  = inl ["pg-backup_2.dump"; "pg-backup_3.dump"].
Proof. vm_compute. reflexivity. Qed.

Example negative_retentionCount_panics :
  result_of (applyRetentionPolicy Background (-1) local3)
  = Panics "index out of range".
Proof. vm_compute. reflexivity. Qed.

Example Base_examples :
  Base "2023/pg-backup_1.dump" = "pg-backup_1.dump" /\ Base "a/b/" = "b" /\
  Base "///" = "/" /\ Base "" = "." /\ Base "x" = "x".
Proof. vm_compute. repeat split. Qed.

(** ** Machine integers *)

Lemma wrap_int_id z : int_min <= z <= int_max -> wrap_int z = z.
Proof.
  unfold wrap_int, int_min, int_max. intros Hz.
  rewrite Z.mod_small by lia. lia.
Qed.

Lemma wrap_int_le z : 0 <= z -> wrap_int z <= z.
Proof.
  unfold wrap_int. intros Hz.
  assert ((z + 2 ^ 63) mod 2 ^ 64 <= z + 2 ^ 63) by (apply Z.mod_le; lia).
  lia.
Qed.

Lemma toDelete_le (backups : list string) rc :
  0 <= rc -> rc < len backups ->
  (Z.to_nat (int_sub (len backups) rc) <= length backups)%nat.
Proof.
  intros Hrc Hlt. unfold int_sub, len in *.
  assert (wrap_int (Z.of_nat (length backups) - rc)
          <= Z.of_nat (length backups) - rc) by (apply wrap_int_le; lia).
  lia.
Qed.

Lemma toDelete_exact (backups : list string) rc :
  0 <= rc -> rc < len backups -> len backups <= int_max ->
  int_sub (len backups) rc = len backups - rc.
Proof.
  intros Hrc Hlt Hmax. unfold int_sub. apply wrap_int_id.
  unfold int_min, int_max in *. lia.
Qed.

(** ** The retention pass, for every storage handle *)

Section RetentionFacts.
Context {St : Type} `{!Storage St}.
Implicit Types (ctx : Context) (s : St) (backups names : list string).

Lemma deleteLoop_deleteAll ctx backups n i s :
  0 <= i -> (Z.to_nat i + n <= length backups)%nat ->
  deleteLoop ctx backups n i s
  = (Returns tt,
     (deleteAll ctx (take n (drop (Z.to_nat i) backups)) s).1,
     (deleteAll ctx (take n (drop (Z.to_nat i) backups)) s).2).
Proof.
  revert i s. induction n as [|n IH]; intros i s Hi Hn.
  - reflexivity.
  - destruct (lookup_lt_is_Some_2 backups (Z.to_nat i)) as [x Hx]; [lia|].
    rewrite (drop_S _ _ _ Hx). cbn [take deleteAll deleteLoop].
    unfold mbind, M_bind, index.
    destruct (Z.ltb_spec i 0) as [?|_]; [lia|]. rewrite Hx.
    cbn. unfold callDelete.
    destruct (Delete ctx x s) as [r s1].
    replace (S (Z.to_nat i)) with (Z.to_nat (i + 1)) by lia.
    destruct r; cbn; rewrite (IH (i + 1) s1) by lia;
      destruct (deleteAll _ _ s1) as [s2 tr]; reflexivity.
Qed.

(** The pass when [List] fails. *)
Lemma applyRetentionPolicy_list_error ctx rc s err s1 :
  List ctx s = (inr err, s1) ->
  applyRetentionPolicy ctx rc s
  = (Returns (Some (ErrWrap "failed to list backups" err)), s1,
     [EvLog (LogApplying rc); EvList (inr err)]).
Proof.
  intros HL. unfold applyRetentionPolicy, mbind, M_bind, callList, emit.
  rewrite HL. reflexivity.
Qed.

(** The pass when the listing is within the limit. *)
Lemma applyRetentionPolicy_within ctx rc s backups s1 :
  List ctx s = (inl backups, s1) -> len backups <= rc ->
  applyRetentionPolicy ctx rc s
  = (Returns None, s1,
     [EvLog (LogApplying rc); EvList (inl backups);
      EvLog (LogWithinLimit (len backups))]).
Proof.
  intros HL Hle. unfold applyRetentionPolicy, mbind, M_bind, callList, emit.
  rewrite HL. destruct (Z.leb_spec (len backups) rc); [reflexivity|lia].
Qed.

(** The pass when the listing exceeds the limit. *)
Lemma applyRetentionPolicy_exceeds ctx rc s backups s1 :
  List ctx s = (inl backups, s1) -> 0 <= rc -> rc < len backups ->
  let toDelete := int_sub (len backups) rc in
  let run := deleteAll ctx (take (Z.to_nat toDelete) backups) s1 in
  applyRetentionPolicy ctx rc s
  = (Returns None, run.1,
     [EvLog (LogApplying rc); EvList (inl backups)] ++ run.2
       ++ [EvLog (LogApplied toDelete)])%list.
Proof.
  intros HL Hrc Hlt toDelete run.
  unfold applyRetentionPolicy, mbind, M_bind, callList, emit.
  rewrite HL. destruct (Z.leb_spec (len backups) rc) as [?|_]; [lia|].
  fold toDelete.
  rewrite deleteLoop_deleteAll; [|lia|].
  - change (Z.to_nat 0) with 0%nat. rewrite drop_0. fold run.
    destruct run as [s2 tr]. reflexivity.
  - pose proof (toDelete_le backups rc Hrc Hlt). unfold toDelete. simpl. lia.
Qed.

(** [deleteAll] calls [Delete] on every name, in order, whatever the
    calls return, and logs one warning per failed call. *)
Lemma deleteAll_deleteCalls ctx names s :
  deleteCalls (deleteAll ctx names s).2 = names.
Proof.
  revert s. induction names as [|name rest IH]; intros s; [reflexivity|].
  cbn [deleteAll]. destruct (Delete ctx name s) as [r s1].
  specialize (IH s1). destruct (deleteAll ctx rest s1) as [s2 tr].
  cbn in *. unfold deleteCalls in *. cbn.
  destruct r; cbn; rewrite IH; reflexivity.
Qed.

Lemma deleteAll_warnings ctx names s :
  deleteWarnings (deleteAll ctx names s).2 = failedDeletes (deleteAll ctx names s).2.
Proof.
  revert s. induction names as [|name rest IH]; intros s; [reflexivity|].
  cbn [deleteAll]. destruct (Delete ctx name s) as [r s1].
  specialize (IH s1). destruct (deleteAll ctx rest s1) as [s2 tr].
  cbn in *. unfold deleteWarnings, failedDeletes in *.
  destruct r; cbn; rewrite IH; reflexivity.
Qed.

End RetentionFacts.

(** ** Ordered listings *)

Lemma string_lt_le s t : string_lt s t -> String.le s t.
Proof. intros [Hle _]. exact Hle. Qed.

Lemma Sorted_le_NoDup_lt (l : list string) :
  Sorted String.le l -> NoDup l -> StronglySorted string_lt l.
Proof.
  intros Hs%Sorted_StronglySorted; [|apply _]. intros Hnd.
  induction Hs as [|x l Hs IH Hx]; [constructor|].
  apply NoDup_cons in Hnd as [Hnotin Hnd].
  constructor; [auto|].
  rewrite Forall_forall in Hx |- *. intros y Hy. split; [auto|].
  intros Hyx. assert (x = y) by (apply (anti_symm String.le); auto).
  subst. contradiction.
Qed.

Lemma StronglySorted_lt_NoDup (l : list string) :
  StronglySorted string_lt l -> NoDup l.
Proof.
  induction 1 as [|x l Hs IH Hx]; [constructor|].
  apply NoDup_cons. split; [|assumption].
  intros Hin. rewrite Forall_forall in Hx.
  destruct (Hx x Hin) as [_ Hn]. apply Hn. reflexivity.
Qed.

Lemma StronglySorted_take_drop {A} (R : relation A) (l : list A) k :
  StronglySorted R l ->
  StronglySorted R (take k l) /\
  StronglySorted R (drop k l) /\
  forall d r, d ∈ take k l -> r ∈ drop k l -> R d r.
Proof.
  intros Hs. rewrite <- (take_drop k l) in Hs.
  apply StronglySorted_app in Hs as (Hcross & Ht & Hd). auto.
Qed.

Lemma sort_Strings_Sorted l : Sorted String.le (sort_Strings l).
Proof. apply Sorted_merge_sort. apply _. Qed.

Lemma sort_Strings_Permutation l : sort_Strings l ≡ₚ l.
Proof. apply merge_sort_Permutation. Qed.

Lemma sort_Strings_elem_of l n : n ∈ sort_Strings l <-> n ∈ l.
Proof. rewrite sort_Strings_Permutation. reflexivity. Qed.

(** ** [LocalStorage.List] *)

Lemma collectBackups_app acc entries :
  foldl (fun backups entry =>
           if negb (IsDir entry) && isBackupFile (Name entry)
           then (backups ++ [Name entry])%list
           else backups) acc entries
  = (acc ++ collectBackups entries)%list.
Proof.
  unfold collectBackups. revert acc.
  induction entries as [|e entries IH]; intros acc; cbn [foldl].
  - rewrite app_nil_r. reflexivity.
  - rewrite IH. symmetry. rewrite IH. symmetry.
    destruct (negb (IsDir e) && isBackupFile (Name e)); cbn.
    + rewrite <- app_assoc. reflexivity.
    + reflexivity.
Qed.

Lemma collectBackups_names (s : LocalStorage) (names : list string) :
  collectBackups
    ((fun n => {| Name := n; IsDir := default false (dir s !! n) |}) <$> names)
  = filter (fun n => isArtifact s n = true) names.
Proof.
  induction names as [|n names IH]; [reflexivity|].
  cbn [fmap list_fmap]. unfold collectBackups in *. cbn [foldl].
  rewrite collectBackups_app. unfold collectBackups. rewrite IH.
  rewrite filter_cons. cbn [Name IsDir].
  change (negb (default false (dir s !! n)) && isBackupFile n)
    with (isArtifact s n).
  destruct (isArtifact s n) eqn:E.
  - rewrite decide_True by reflexivity. reflexivity.
  - rewrite decide_False by discriminate. reflexivity.
Qed.

Lemma LocalStorage_List_ok ctx (s : LocalStorage) :
  readDirErr s = None -> List ctx s = (inl (listing s), s).
Proof.
  intros Hr. cbn. unfold LocalStorage_List, ReadDir. rewrite Hr.
  rewrite collectBackups_names. reflexivity.
Qed.

Lemma LocalStorage_List_error ctx (s : LocalStorage) err :
  readDirErr s = Some err ->
  List ctx s = (inr (ErrWrap "failed to read backup directory" err), s).
Proof.
  intros Hr. cbn. unfold LocalStorage_List, ReadDir. rewrite Hr. reflexivity.
Qed.

Lemma LocalStorage_List_state ctx (s : LocalStorage) : (List ctx s).2 = s.
Proof.
  destruct (readDirErr s) as [err|] eqn:Hr.
  - rewrite (LocalStorage_List_error _ _ _ Hr). reflexivity.
  - rewrite (LocalStorage_List_ok _ _ Hr). reflexivity.
Qed.

Lemma elem_of_listing (s : LocalStorage) n :
  n ∈ listing s <-> dir s !! n = Some false /\ isBackupFile n = true.
Proof.
  unfold listing. rewrite sort_Strings_elem_of, list_elem_of_filter.
  rewrite sort_Strings_elem_of, list_elem_of_fmap. unfold isArtifact.
  split.
  - intros (Hart & [k d] & -> & Hin). apply elem_of_map_to_list in Hin.
    cbn in *. rewrite Hin in *. cbn in Hart.
    apply andb_true_iff in Hart as [Hd Hb]. destruct d; [discriminate|]. auto.
  - intros [Hd Hb]. split.
    + rewrite Hd, Hb. reflexivity.
    + exists (n, false). split; [reflexivity|]. apply elem_of_map_to_list. exact Hd.
Qed.

Lemma listing_NoDup (s : LocalStorage) : NoDup (listing s).
Proof.
  unfold listing. rewrite sort_Strings_Permutation.
  apply NoDup_filter. rewrite sort_Strings_Permutation.
  apply NoDup_fst_map_to_list.
Qed.

Lemma listing_sorted (s : LocalStorage) : StronglySorted string_lt (listing s).
Proof.
  apply Sorted_le_NoDup_lt; [apply sort_Strings_Sorted | apply listing_NoDup].
Qed.

(** ** [S3Storage.List] *)

Lemma S3Storage_List_sorted ctx (s s1 : S3Storage) backups :
  List ctx s = (inl backups, s1) -> Sorted String.le backups /\ s1 = s.
Proof.
  cbn. unfold S3Storage_List.
  destruct (collectPages _ _) as [l|err]; [|discriminate].
  intros [= <- <-]. split; [apply sort_Strings_Sorted|reflexivity].
Qed.

(** ** [LocalStorage.Delete] and the deletion loop on a directory *)

Lemma LocalStorage_Delete_cases ctx name (s : LocalStorage) :
  (exists err, Delete ctx name s = (Some err, s)) \/
  (exists s1, Delete ctx name s = (None, s1) /\
              dir s1 = delete name (dir s) /\
              readDirErr s1 = readDirErr s).
Proof.
  cbn. unfold LocalStorage_Delete, Remove.
  destruct (dir s !! name); [|left; eauto].
  destruct (removeErr s name); [left; eauto|].
  right. eexists. split; [reflexivity|]. cbn. auto.
Qed.

Lemma local_deleteAll ctx names (s : LocalStorage) :
  let run := deleteAll ctx names s in
  readDirErr run.1 = readDirErr s /\
  (forall n v, dir run.1 !! n = Some v -> dir s !! n = Some v) /\
  (forall n, n ∉ names -> dir run.1 !! n = dir s !! n) /\
  (failedDeletes run.2 = [] -> forall n, n ∈ names -> dir run.1 !! n = None).
Proof.
  revert s. induction names as [|name rest IH]; intros s.
  - cbn. repeat split; auto. intros _ n Hn. inversion Hn.
  - cbn [deleteAll].
    destruct (LocalStorage_Delete_cases ctx name s)
      as [[err ->]|(s1 & -> & Hdir & Hrd)].
    + specialize (IH s). destruct (deleteAll ctx rest s) as [s2 tr].
      cbn in *. destruct IH as (Hr & Hsub & Hframe & _).
      repeat split; auto.
      * intros n Hn. apply Hframe. set_solver.
      * unfold failedDeletes. cbn. discriminate.
    + specialize (IH s1). destruct (deleteAll ctx rest s1) as [s2 tr].
      cbn in *. destruct IH as (Hr & Hsub & Hframe & Hgone).
      split; [congruence|]. split; [|split].
      * intros n v Hn. apply Hsub in Hn. rewrite Hdir in Hn.
        apply lookup_delete_Some in Hn as [_ Hn']. exact Hn'.
      * intros n Hn. rewrite Hframe by set_solver. rewrite Hdir.
        apply lookup_delete_ne. set_solver.
      * intros Hnofail n Hn.
        destruct (decide (n ∈ rest)) as [Hin|Hnotin].
        -- apply Hgone; assumption.
        -- apply elem_of_cons in Hn as [Heq|Hin]; [subst n|contradiction].
           rewrite Hframe by assumption. rewrite Hdir.
           apply lookup_delete_eq.
Qed.

(** Two strictly ascending lists with the same elements are equal. *)
Lemma strictly_sorted_ext (l1 l2 : list string) :
  StronglySorted string_lt l1 -> StronglySorted string_lt l2 ->
  (forall n, n ∈ l1 <-> n ∈ l2) -> l1 = l2.
Proof.
  intros H1 H2 Hext.
  apply (StronglySorted_unique_strong string_lt); auto.
  - intros x1 x2 _ _ [H12 Hn] [H21 _]. contradiction.
  - apply NoDup_Permutation; auto using StronglySorted_lt_NoDup.
Qed.

(** The directory after a pass: what it lists. *)
Lemma local_pass_listing ctx (s : LocalStorage) names :
  names ⊆ listing s ->
  let run := deleteAll ctx names s in
  (forall n, n ∈ listing run.1 -> n ∈ listing s) /\
  (forall n, n ∈ listing s -> n ∉ names -> n ∈ listing run.1) /\
  (failedDeletes run.2 = [] -> forall n, n ∈ names -> n ∉ listing run.1).
Proof.
  intros Hsub run. destruct (local_deleteAll ctx names s)
    as (_ & Hdsub & Hframe & Hgone). fold run in Hdsub, Hframe, Hgone.
  split; [|split].
  - intros n [Hd Hb]%elem_of_listing. apply elem_of_listing. eauto.
  - intros n [Hd Hb]%elem_of_listing Hn. apply elem_of_listing.
    rewrite Hframe by assumption. auto.
  - intros Hnf n Hn [Hd Hb]%elem_of_listing.
    rewrite (Hgone Hnf n Hn) in Hd. discriminate.
Qed.

(** ** The calls of a pass *)

Section PassFacts.
Context {St : Type} `{!Storage St}.
Implicit Types (ctx : Context) (s : St) (backups : list string).

Lemma scheduled_within backups rc : len backups <= rc -> scheduled backups rc = [].
Proof.
  intros Hle. unfold scheduled.
  replace (Z.to_nat (len backups - rc)) with 0%nat by lia. reflexivity.
Qed.

Lemma scheduled_kept backups rc : (scheduled backups rc ++ kept backups rc)%list = backups.
Proof. apply take_drop. Qed.

Lemma scheduled_length backups rc :
  0 <= rc -> len (scheduled backups rc) = Z.max 0 (len backups - rc).
Proof.
  intros Hrc. unfold scheduled, len. rewrite length_take. lia.
Qed.

Lemma kept_length backups rc :
  0 <= rc -> len (kept backups rc) = Z.min (len backups) rc.
Proof.
  intros Hrc. unfold kept, len. rewrite length_drop. lia.
Qed.

(** A pass whose [List] succeeds runs [deleteAll] on the scheduled names
    and returns [nil]. *)
Lemma pass_run ctx rc s backups s1 :
  List ctx s = (inl backups, s1) -> 0 <= rc -> len backups <= int_max ->
  let run := deleteAll ctx (scheduled backups rc) s1 in
  exists pre post,
    applyRetentionPolicy ctx rc s
    = (Returns None, run.1, (pre ++ run.2 ++ post)%list) /\
    pre = [EvLog (LogApplying rc); EvList (inl backups)] /\
    (post = [EvLog (LogWithinLimit (len backups))] \/
     post = [EvLog (LogApplied (len backups - rc))]).
Proof.
  intros HL Hrc Hmax run.
  destruct (Z.le_gt_cases (len backups) rc) as [Hle|Hgt].
  - exists [EvLog (LogApplying rc); EvList (inl backups)],
           [EvLog (LogWithinLimit (len backups))].
    rewrite (applyRetentionPolicy_within _ _ _ _ _ HL Hle).
    unfold run. rewrite (scheduled_within _ _ Hle). cbn. auto.
  - exists [EvLog (LogApplying rc); EvList (inl backups)],
           [EvLog (LogApplied (len backups - rc))].
    rewrite (applyRetentionPolicy_exceeds _ _ _ _ _ HL Hrc) by lia.
    rewrite toDelete_exact by lia. auto.
Qed.

Lemma pass_deleteCalls ctx rc s backups s1 :
  List ctx s = (inl backups, s1) -> 0 <= rc -> len backups <= int_max ->
  deleteCalls (trace_of (applyRetentionPolicy ctx rc s)) = scheduled backups rc.
Proof.
  intros HL Hrc Hmax.
  destruct (pass_run _ _ _ _ _ HL Hrc Hmax) as (pre & post & -> & -> & Hpost).
  unfold trace_of, deleteCalls. cbn [snd]. rewrite !omap_app.
  fold (deleteCalls (deleteAll ctx (scheduled backups rc) s1).2).
  rewrite deleteAll_deleteCalls.
  destruct Hpost as [-> | ->]; cbn; rewrite app_nil_r; reflexivity.
Qed.

Lemma pass_warnings ctx rc s backups s1 :
  List ctx s = (inl backups, s1) -> 0 <= rc -> len backups <= int_max ->
  deleteWarnings (trace_of (applyRetentionPolicy ctx rc s))
  = failedDeletes (trace_of (applyRetentionPolicy ctx rc s)).
Proof.
  intros HL Hrc Hmax.
  destruct (pass_run _ _ _ _ _ HL Hrc Hmax) as (pre & post & -> & -> & Hpost).
  unfold trace_of, deleteWarnings, failedDeletes. cbn [snd]. rewrite !omap_app.
  fold (deleteWarnings (deleteAll ctx (scheduled backups rc) s1).2).
  fold (failedDeletes (deleteAll ctx (scheduled backups rc) s1).2).
  rewrite deleteAll_warnings.
  destruct Hpost as [-> | ->]; reflexivity.
Qed.

Lemma pass_failedDeletes ctx rc s backups s1 :
  List ctx s = (inl backups, s1) -> 0 <= rc -> len backups <= int_max ->
  failedDeletes (trace_of (applyRetentionPolicy ctx rc s))
  = failedDeletes (deleteAll ctx (scheduled backups rc) s1).2.
Proof.
  intros HL Hrc Hmax.
  destruct (pass_run _ _ _ _ _ HL Hrc Hmax) as (pre & post & -> & -> & Hpost).
  unfold trace_of, failedDeletes. cbn [snd]. rewrite !omap_app.
  destruct Hpost as [-> | ->]; cbn; rewrite app_nil_r; reflexivity.
Qed.

End PassFacts.

Global Instance string_lt_transitive : Transitive string_lt.
Proof.
  intros x y z [Hxy Hnyx] [Hyz Hnzy]. split.
  - etrans; eassumption.
  - intros Hzx. apply Hnyx. etrans; eassumption.
Qed.

(** ** The claims about the retention pass *)

(** C1 (amended).  For every storage handle whose [List] succeeds with a
    listing of length [n] and every non-negative [RetentionCount], the pass
    issues no [Delete] call when [n <= RetentionCount]; when
    [n > RetentionCount] it issues exactly [n - RetentionCount] calls,
    on the first [n - RetentionCount] names of the listing, in the order of
    the listing; with [RetentionCount = 0] every listed name is a target.
    When the listing is ascending (as [List] returns it on both backends)
    the targets are ascending and no target is above a name that is kept:
    they are the [n - RetentionCount] smallest names.  When the listing is
    strictly ascending (no name twice, as [LocalStorage.List] returns it) the
    targets are strictly ascending and strictly below every name kept. *)
Theorem C1_pass_deletes_head_of_listing
        {St : Type} `{!Storage St} (ctx : Context) (s s1 : St)
        (rc : Z) (backups : list string) :
  List ctx s = (inl backups, s1) -> 0 <= rc -> len backups <= int_max ->
  let calls := deleteCalls (trace_of (applyRetentionPolicy ctx rc s)) in
  (len backups <= rc -> calls = []) /\
  (rc < len backups ->
   calls = take (Z.to_nat (len backups - rc)) backups /\
   len calls = len backups - rc) /\
  (rc = 0 -> calls = backups) /\
  (calls ++ kept backups rc)%list = backups /\
  (Sorted String.le backups ->
   Sorted String.le calls /\
   forall d k, d ∈ calls -> k ∈ kept backups rc -> String.le d k) /\
  (Sorted string_lt backups ->
   Sorted string_lt calls /\
   forall d k, d ∈ calls -> k ∈ kept backups rc -> string_lt d k).
Proof.
  intros HL Hrc Hmax calls.
  assert (Hcalls : calls = scheduled backups rc)
    by (apply (pass_deleteCalls _ _ _ _ _ HL Hrc Hmax)).
  rewrite Hcalls.
  split; [|split; [|split; [|split; [|split]]]].
  - apply scheduled_within.
  - intros Hlt. split; [reflexivity|].
    rewrite scheduled_length by assumption. lia.
  - intros ->. unfold scheduled. rewrite Z.sub_0_r. unfold len.
    rewrite Nat2Z.id. apply firstn_all.
  - apply scheduled_kept.
  - intros Hs. apply Sorted_StronglySorted in Hs; [|apply _].
    destruct (StronglySorted_take_drop _ _ (Z.to_nat (len backups - rc)) Hs)
      as (Ht & _ & Hcross).
    split; [apply StronglySorted_Sorted; exact Ht | exact Hcross].
  - intros Hs. apply Sorted_StronglySorted in Hs; [|apply _].
    destruct (StronglySorted_take_drop _ _ (Z.to_nat (len backups - rc)) Hs)
      as (Ht & _ & Hcross).
    split; [apply StronglySorted_Sorted; exact Ht | exact Hcross].
Qed.

Lemma C1_pass_deletes_head_of_listing_witness :
  let calls := deleteCalls (trace_of (applyRetentionPolicy Background 2 local3)) in
  (calls = take (Z.to_nat (3 - 2))
                ["pg-backup_1.dump"; "pg-backup_2.dump"; "pg-backup_3.dump"] /\
   len calls = 3 - 2) /\
  Sorted string_lt calls.
Proof.
  pose proof (C1_pass_deletes_head_of_listing Background local3 local3 2
                ["pg-backup_1.dump"; "pg-backup_2.dump"; "pg-backup_3.dump"])
    as H.
  destruct H as (_ & Hex & _ & _ & _ & Hlt).
  - vm_compute. reflexivity.
  - lia.
  - vm_compute. discriminate.
  - split.
    + apply Hex. vm_compute. reflexivity.
    + apply Hlt. repeat constructor; vm_compute; intuition discriminate.
Defined.

(** C1, as stated, fails on the S3 backend: for a bucket that holds two
    objects with the same base name under different key prefixes, [List]
    returns that name twice, and a pass with [RetentionCount = 0] calls
    [Delete] twice on the same name: the targets are not strictly
    ascending. *)
Lemma C1_counterexample :
  (List Background s3_nested).1 = inl ["pg-backup_1.dump"; "pg-backup_1.dump"] /\
  deleteCalls (trace_of (applyRetentionPolicy Background 0 s3_nested))
  = ["pg-backup_1.dump"; "pg-backup_1.dump"] /\
  ~ Sorted string_lt
      (deleteCalls (trace_of (applyRetentionPolicy Background 0 s3_nested))).
Proof.
  split; [vm_compute; reflexivity|]. split; [vm_compute; reflexivity|].
  replace (deleteCalls (trace_of (applyRetentionPolicy Background 0 s3_nested)))
    with ["pg-backup_1.dump"; "pg-backup_1.dump"] by (vm_compute; reflexivity).
  intros Hs. inversion Hs as [|x l _ Hhd]; subst.
  inversion Hhd as [|y l' [_ Hn]]; subst. apply Hn. reflexivity.
Qed.

(** C5.  For every storage handle, that is for every way its [Delete]
    calls succeed or fail: when [List] succeeds the pass is not aborted (it
    returns [nil]), [Delete] is called on every scheduled name, in order,
    and each failed call is reported by one logged warning that names the
    artifact and the error. *)
Theorem C5_delete_failure_does_not_abort
        {St : Type} `{!Storage St} (ctx : Context) (s s1 : St)
        (rc : Z) (backups : list string) :
  List ctx s = (inl backups, s1) -> 0 <= rc -> len backups <= int_max ->
  let r := applyRetentionPolicy ctx rc s in
  result_of r = Returns None /\
  deleteCalls (trace_of r) = scheduled backups rc /\
  deleteWarnings (trace_of r) = failedDeletes (trace_of r).
Proof.
  intros HL Hrc Hmax r. split; [|split].
  - destruct (pass_run _ _ _ _ _ HL Hrc Hmax) as (pre & post & Heq & _).
    unfold r. rewrite Heq. reflexivity.
  - apply (pass_deleteCalls _ _ _ _ _ HL Hrc Hmax).
  - apply (pass_warnings _ _ _ _ _ HL Hrc Hmax).
Qed.

Lemma C5_delete_failure_does_not_abort_witness :
  let r := applyRetentionPolicy Background 1 local3_locked in
  result_of r = Returns None /\
  deleteCalls (trace_of r) = ["pg-backup_1.dump"; "pg-backup_2.dump"] /\
  deleteWarnings (trace_of r)
  = [("pg-backup_1.dump", ErrWrap "failed to delete backup" EPERM)].
Proof.
  destruct (C5_delete_failure_does_not_abort Background local3_locked
              local3_locked 1
              ["pg-backup_1.dump"; "pg-backup_2.dump"; "pg-backup_3.dump"])
    as (Hres & Hcalls & Hwarn).
  - vm_compute. reflexivity.
  - lia.
  - vm_compute. discriminate.
  - split; [exact Hres|]. split.
    + rewrite Hcalls. reflexivity.
    + rewrite Hwarn. vm_compute. reflexivity.
Defined.

(** C6.  When the [List] call of a pass fails, the pass returns an error
    (the [List] error, wrapped), the only call it has made on the storage
    is that [List]: no [Delete] call; the storage is in the state [List]
    left it in. *)
Theorem C6_list_failure_aborts_before_any_delete
        {St : Type} `{!Storage St} (ctx : Context) (s s1 : St)
        (rc : Z) (err : error) :
  List ctx s = (inr err, s1) ->
  let r := applyRetentionPolicy ctx rc s in
  result_of r = Returns (Some (ErrWrap "failed to list backups" err)) /\
  trace_of r = [EvLog (LogApplying rc); EvList (inr err)] /\
  deleteCalls (trace_of r) = [] /\
  state_of r = s1.
Proof.
  intros HL r. unfold r.
  rewrite (applyRetentionPolicy_list_error _ _ _ _ _ HL).
  repeat split.
Qed.

Lemma C6_list_failure_aborts_before_any_delete_witness :
  let r := applyRetentionPolicy Background 1 local_unreadable in
  result_of r
  = Returns (Some (ErrWrap "failed to list backups"
                     (ErrWrap "failed to read backup directory" EPERM))) /\
  deleteCalls (trace_of r) = [] /\
  state_of r = local_unreadable.
Proof.
  destruct (C6_list_failure_aborts_before_any_delete Background
              local_unreadable local_unreadable 1
              (ErrWrap "failed to read backup directory" EPERM))
    as (Hres & _ & Hcalls & Hst).
  - apply LocalStorage_List_error. reflexivity.
  - auto.
Defined.

(** C10.  For a non-negative [RetentionCount]: a pass returns [nil]
    whenever its [List] call succeeds, whatever its [Delete] calls return;
    and an error it returns is the error of its [List] call, wrapped. *)
Theorem C10_pass_returns_nil_unless_list_fails
        {St : Type} `{!Storage St} (ctx : Context) (s : St) (rc : Z) :
  0 <= rc ->
  let r := applyRetentionPolicy ctx rc s in
  (forall backups s1, List ctx s = (inl backups, s1) -> result_of r = Returns None) /\
  (forall e, result_of r = Returns (Some e) ->
             exists cause s1, List ctx s = (inr cause, s1) /\
                              e = ErrWrap "failed to list backups" cause).
Proof.
  intros Hrc r.
  assert (Hok : forall backups s1,
             List ctx s = (inl backups, s1) -> result_of r = Returns None).
  { intros backups s1 HL. unfold r.
    destruct (Z.le_gt_cases (len backups) rc) as [Hle|Hgt].
    - rewrite (applyRetentionPolicy_within _ _ _ _ _ HL Hle). reflexivity.
    - rewrite (applyRetentionPolicy_exceeds _ _ _ _ _ HL Hrc) by lia.
      reflexivity. }
  split; [exact Hok|].
  intros e He. destruct (List ctx s) as [[backups|cause] s1] eqn:HL.
  - rewrite (Hok _ _ eq_refl) in He. discriminate.
  - exists cause, s1. split; [reflexivity|].
    unfold r in He. rewrite (applyRetentionPolicy_list_error _ _ _ _ _ HL) in He.
    cbn in He. congruence.
Qed.

Lemma C10_pass_returns_nil_unless_list_fails_witness :
  result_of (applyRetentionPolicy Background 0 local3_locked) = Returns None.
Proof.
  destruct (C10_pass_returns_nil_unless_list_fails Background local3_locked 0)
    as [Hok _]; [lia|].
  apply (Hok (listing local3_locked) local3_locked).
  apply LocalStorage_List_ok. reflexivity.
Defined.

(** ** The claims about the filesystem backend *)

Lemma local_pass_state ctx (s : LocalStorage) rc :
  readDirErr s = None -> 0 <= rc -> len (listing s) <= int_max ->
  state_of (applyRetentionPolicy ctx rc s)
  = (deleteAll ctx (scheduled (listing s) rc) s).1.
Proof.
  intros Hr Hrc Hmax.
  destruct (pass_run ctx rc s (listing s) s (LocalStorage_List_ok ctx s Hr) Hrc Hmax)
    as (pre & post & -> & _). reflexivity.
Qed.

Lemma scheduled_subseteq (backups : list string) rc : scheduled backups rc ⊆ backups.
Proof.
  intros n Hn. rewrite <- (scheduled_kept backups rc). apply elem_of_app. auto.
Qed.

Lemma kept_subseteq (backups : list string) rc : kept backups rc ⊆ backups.
Proof.
  intros n Hn. rewrite <- (scheduled_kept backups rc). apply elem_of_app. auto.
Qed.

Lemma kept_not_scheduled (backups : list string) rc n :
  NoDup backups -> n ∈ kept backups rc -> n ∉ scheduled backups rc.
Proof.
  intros Hnd Hk Hs. rewrite <- (scheduled_kept backups rc) in Hnd.
  apply NoDup_app in Hnd as (_ & Hdisj & _). exact (Hdisj n Hs Hk).
Qed.




(** C7 (amended).  For every readable directory, [LocalStorage.List]
    returns exactly the names of the entries that are not directories and
    match the naming convention (prefix ["pg-backup_"] and one of the
    extensions [.dump], [.sql], [.sql.gz], [.tar]), in strictly ascending
    order; it leaves the directory as it is.  A file named
    ["pg-backup_2024-01-01.dump"] is listed; ["readme.txt"] and
    ["pg-backup_2024-01-01.dump.tmp"] never are. *)
Theorem C7_List_returns_sorted_backup_files (ctx : Context) (s : LocalStorage) :
  readDirErr s = None ->
  exists backups,
    List ctx s = (inl backups, s) /\
    (forall n, n ∈ backups <->
               dir s !! n = Some false /\ isBackupFile n = true) /\
    Sorted String.le backups /\
    Sorted string_lt backups /\
    (dir s !! "pg-backup_2024-01-01.dump" = Some false ->
     "pg-backup_2024-01-01.dump" ∈ backups) /\
    ("readme.txt" ∉ backups) /\
    ("pg-backup_2024-01-01.dump.tmp" ∉ backups).
Proof.
  intros Hr. exists (listing s).
  split; [apply LocalStorage_List_ok; exact Hr|].
  split; [apply elem_of_listing|].
  split; [apply sort_Strings_Sorted|].
  split; [apply StronglySorted_Sorted, listing_sorted|].
  split; [|split].
  - intros Hd. apply elem_of_listing. split; [exact Hd|reflexivity].
  - intros [_ Hb]%elem_of_listing. vm_compute in Hb. discriminate.
  - intros [_ Hb]%elem_of_listing. vm_compute in Hb. discriminate.
Qed.

Lemma C7_List_returns_sorted_backup_files_witness :
  exists backups,
    List Background local3 = (inl backups, local3) /\
    (forall n, n ∈ backups <->
               dir local3 !! n = Some false /\ isBackupFile n = true) /\
    Sorted string_lt backups.
Proof.
  destruct (C7_List_returns_sorted_backup_files Background local3)
    as (backups & HL & Hin & _ & Hs & _); [reflexivity|].
  exists backups. auto.
Defined.

(** C7, as stated, fails for a directory entry that is itself a
    directory: its name matches the naming convention and [List] does not
    return it. *)
Lemma C7_counterexample :
  dir local_subdir !! "pg-backup_2024-01-01.dump" = Some true /\
  isBackupFile "pg-backup_2024-01-01.dump" = true /\
  (List Background local_subdir).1 = inl [].
Proof.
  split; [vm_compute; reflexivity|]. split; vm_compute; reflexivity.
Qed.

(** ** [LocalStorage.Upload] under a cancelled context *)

Lemma select2_ctx_ready done chosen :
  select2 ReadyNow done chosen
  = Some (match done with ReadyNow => chosen | _ => CaseCtxDone end).
Proof. destruct done; reflexivity. Qed.

(** C4 (amended).  For every source path and name, [LocalStorage.Upload]
    called with a context that is already cancelled does not hang, under
    every interleaving of the copy with the [select].  It returns the error
    of [os.Open] or of [os.Create] when one of them fails.  Otherwise it
    returns the context's error, except when the copy has already sent its
    result as the [select] is reached and the [select] takes that case:
    then it returns what the copy returned. *)
Theorem C4_Upload_cancelled_context
        (run : UploadRun) (sourcePath backupName : string) (s : LocalStorage) :
  ctxDone run = ReadyNow ->
  let out := (LocalStorage_Upload run sourcePath backupName s).1 in
  out <> UploadBlocks /\
  (forall e, openErr run = Some e ->
             out = UploadReturns (Some (ErrWrap "failed to open source file" e))) /\
  (forall e, openErr run = None -> createErr run = Some e ->
             out = UploadReturns
                     (Some (ErrWrap "failed to create destination file" e))) /\
  (openErr run = None -> createErr run = None ->
   copyDone run <> ReadyNow \/ chosen run = CaseCtxDone ->
   out = UploadReturns (Some (ctxErr run))) /\
  (openErr run = None -> createErr run = None ->
   copyDone run = ReadyNow -> chosen run = CaseCopyDone ->
   out = UploadReturns
           (match copyErr run with
            | Some e => Some (ErrWrap "failed to copy file" e)
            | None => None
            end)).
Proof.
  intros Hctx out. unfold out, LocalStorage_Upload. rewrite Hctx.
  rewrite select2_ctx_ready.
  destruct (openErr run) as [eo|].
  { cbn. repeat split; intros; congruence. }
  destruct (createErr run) as [ec|].
  { cbn. repeat split; intros; congruence. }
  destruct (copyDone run), (chosen run), (copyErr run);
    cbn; (split; [discriminate|]); (split; [intros; discriminate|]);
    (split; [intros; discriminate|]);
    (split; [intros _ _ [Hn|Hc]; congruence|]); intros; congruence.
Qed.

Lemma C4_Upload_cancelled_context_witness :
  (LocalStorage_Upload upload_copy_pending "/tmp/dump" "pg-backup_4.dump" local3).1
  = UploadReturns (Some Canceled).
Proof.
  destruct (C4_Upload_cancelled_context upload_copy_pending
              "/tmp/dump" "pg-backup_4.dump" local3)
    as (_ & _ & _ & Hctx & _); [reflexivity|].
  apply Hctx; [reflexivity|reflexivity|]. left. discriminate.
Defined.

(** C4, as stated, fails for one interleaving: the context is already
    cancelled, the copy has sent its result before the [select] is
    reached, and the [select] takes the copy: [Upload] returns [nil]. *)
Lemma C4_counterexample :
  ctxDone upload_copy_first = ReadyNow /\
  (LocalStorage_Upload upload_copy_first "/tmp/dump" "pg-backup_4.dump" local3).1
  = UploadReturns None /\
  UploadReturns None <> UploadReturns (Some (ctxErr upload_copy_first)).
Proof. split; [reflexivity|]. split; [reflexivity|discriminate]. Qed.

(** ** The service loop *)

Section RunFacts.
Context {Store B : Type} `{!Storage Store} `{!Backup.t Store B}.
Variable w : World Store.

Lemma logExtra_run lines (b : B) :
  logExtra lines b = (Returns tt, b, (fun v => RLog (LogExtra v)) <$> lines).
Proof.
  induction lines as [|v rest IH]; [reflexivity|].
  cbn [logExtra]. unfold mbind, M_bind, emit. rewrite IH. reflexivity.
Qed.

(** One firing of the job: the events it adds. *)
Lemma cronJob_run cfg (b : B) :
  let ctx := WithTimeout Background (minutes (BackupTimeout cfg)) in
  cronJob cfg b
  = (Returns tt, (Backup.Run ctx b).2,
     RLog LogCronTriggered :: RRun ctx (Backup.Run ctx b).1 ::
     match (Backup.Run ctx b).1 with
     | Some e => [RLog (LogBackupFailed e)]
     | None => []
     end).
Proof.
  intros ctx. unfold cronJob, mbind, M_bind, emit, callRun. fold ctx.
  destruct (Backup.Run ctx b) as [[e|] b1]; reflexivity.
Qed.

(** The firings: every one calls [b.Run] under the timeout context, a
    failure is logged, and the next firing takes place all the same. *)
Lemma fire_run n cfg (b : B) :
  let ctx := WithTimeout Background (minutes (BackupTimeout cfg)) in
  exists b1 tr,
    fire n (cronJob cfg) b = (Returns tt, b1, tr) /\
    runContexts tr = replicate n ctx /\
    runFailureLogs tr = runFailures tr /\
    Forall (fun e => isCronEvent e = false) tr.
Proof.
  intros ctx. revert b. induction n as [|n IH]; intros b.
  - exists b, []. repeat split; constructor.
  - cbn [fire]. unfold mbind, M_bind. rewrite cronJob_run. fold ctx.
    destruct (IH (Backup.Run ctx b).2) as (b2 & tr & -> & Hctx & Hlog & Hcron).
    eexists _, _. split; [reflexivity|].
    unfold runContexts, runFailureLogs, runFailures in *.
    destruct (Backup.Run ctx b).1 as [e|]; cbn;
      rewrite ?Hctx, ?Hlog; repeat split; repeat constructor; exact Hcron.
Qed.

(** [Run] up to the connection probe, when the steps before it succeed. *)
Lemma Run_probe_fails (b b1 b2 b3 : B) cfg store e :
  Backup.Config b = (inl cfg, b1) ->
  New w cfg = inl store ->
  Backup.SetStorage store b1 = (None, b2) ->
  Backup.TestConnection Background b2 = (Some e, b3) ->
  Run w b
  = (Returns (Some (ErrFmt "failed to connect to PostgreSQL" e)), b3,
     [RLog (LogStarting (Backup.Name b)); RConfig; RLog LogConfigLoaded]
       ++ ((fun v => RLog (LogExtra v)) <$> Backup.ExtraConfigLogInfo b1)
       ++ [RLog (LogSchedule (BackupCron cfg));
           RLog (LogStorageType (StorageType cfg));
           RLog (LogRetention (RetentionCount cfg));
           RNew;
           RLog (LogStorageInitialized (Type_ store));
           RSetStorage;
           RTestConnection Background (Some e)])%list.
Proof.
  intros Hcfg Hnew Hset Htest.
  unfold Run, mbind, M_bind, getName, emit, callConfig,
    getExtraConfigLogInfo, callSetStorage, callTestConnection.
  rewrite Hcfg. rewrite logExtra_run. rewrite Hnew. rewrite Hset.
  rewrite Htest. reflexivity.
Qed.

Lemma omap_logExtra {A} (f : RunEvent -> option A) lines :
  (forall v, f (RLog (LogExtra v)) = None) ->
  omap f ((fun v => RLog (LogExtra v)) <$> lines) = [].
Proof.
  intros Hf. induction lines as [|v rest IH]; [reflexivity|].
  cbn. rewrite Hf. exact IH.
Qed.

Lemma cronCalls_none tr :
  Forall (fun e => isCronEvent e = false) tr -> cronCalls tr = [].
Proof.
  induction 1 as [|e tr He _ IH]; [reflexivity|].
  unfold cronCalls in *. cbn. rewrite He. exact IH.
Qed.

(** [Run] when the startup steps succeed and the schedule parses. *)
Lemma Run_ready (b b1 b2 b3 : B) cfg store :
  Backup.Config b = (inl cfg, b1) ->
  New w cfg = inl store ->
  Backup.SetStorage store b1 = (None, b2) ->
  Backup.TestConnection Background b2 = (None, b3) ->
  cronParseErr w (BackupCron cfg) = None ->
  let r := Run w b in
  let ctx := WithTimeout Background (minutes (BackupTimeout cfg)) in
  result_of r = Returns None /\
  runContexts (trace_of r)
  = ((if BackupOnStart cfg then [Background] else []) ++ replicate (ticks w) ctx)%list /\
  runFailureLogs (trace_of r) = runFailures (trace_of r) /\
  cronCalls (trace_of r)
  = [RCronAddFunc (BackupCron cfg) None; RCronStart; RCronStop].
Proof.
  intros Hcfg Hnew Hset Htest Hcron r ctx. unfold r.
  unfold Run, mbind, M_bind, getName, emit, callConfig,
    getExtraConfigLogInfo, callSetStorage, callTestConnection, callRun.
  rewrite Hcfg. rewrite logExtra_run. rewrite Hnew. rewrite Hset.
  rewrite Htest. rewrite Hcron.
  unfold result_of, trace_of, runContexts, runFailureLogs, runFailures, cronCalls.
  destruct (BackupOnStart cfg).
  - destruct (Backup.Run Background b3) as [[e0|] b4]; cbn -[fire cronJob replicate];
      destruct (fire_run (ticks w) cfg b4) as (b5 & tr & -> & Hctx & Hlog & Hnc);
      apply cronCalls_none in Hnc;
      unfold runContexts, runFailureLogs, runFailures, cronCalls in *;
      cbn -[replicate];
      rewrite !omap_app, !omap_logExtra by reflexivity; cbn -[replicate];
      rewrite !omap_app, Hctx, Hlog, Hnc; cbn -[replicate];
      rewrite ?app_nil_r; auto.
  - cbn -[fire cronJob replicate];
      destruct (fire_run (ticks w) cfg b3) as (b5 & tr & -> & Hctx & Hlog & Hnc);
      apply cronCalls_none in Hnc;
      unfold runContexts, runFailureLogs, runFailures, cronCalls in *;
      cbn -[replicate];
      rewrite !omap_app, !omap_logExtra by reflexivity; cbn -[replicate];
      rewrite !omap_app, Hctx, Hlog, Hnc; cbn -[replicate];
      rewrite ?app_nil_r; auto.
Qed.

End RunFacts.

(** ** The claims about the service loop *)

(** C3, evaluated where it fails.  With run-on-startup enabled and a
    30-minute timeout configured, [Run] calls [b.Run] three times for two
    firings of the schedule: the two scheduled runs get a context with the
    timeout, the startup run gets [context.Background()], which has no
    deadline. *)
Theorem C3_startup_run_has_no_deadline :
  BackupOnStart config_on_start = true /\
  runContexts (trace_of (Run world2 producer_failing))
  = [Background;
     WithTimeout Background (minutes (BackupTimeout config_on_start));
     WithTimeout Background (minutes (BackupTimeout config_on_start))] /\
  hasDeadline Background = false /\
  hasDeadline (WithTimeout Background (minutes (BackupTimeout config_on_start)))
  = true.
Proof.
  split; [reflexivity|]. split; [vm_compute; reflexivity|].
  split; reflexivity.
Qed.

(** C8.  When the connection probe is reached (configuration, storage
    construction and [SetStorage] have succeeded) and fails, [Run] returns
    a non-nil error, has made no call on the cron scheduler and has not
    called [b.Run]; this for every configuration, run-on-startup enabled
    or not. *)
Theorem C8_probe_failure_aborts_startup
        {Store B : Type} `{!Storage Store} `{!Backup.t Store B}
        (w : World Store) (b b1 b2 b3 : B) (cfg : Config) (store : Store)
        (e : error) :
  Backup.Config b = (inl cfg, b1) ->
  New w cfg = inl store ->
  Backup.SetStorage store b1 = (None, b2) ->
  Backup.TestConnection Background b2 = (Some e, b3) ->
  let r := Run w b in
  result_of r = Returns (Some (ErrFmt "failed to connect to PostgreSQL" e)) /\
  runContexts (trace_of r) = [] /\
  cronCalls (trace_of r) = [].
Proof.
  intros Hcfg Hnew Hset Htest r. unfold r.
  rewrite (Run_probe_fails w b b1 b2 b3 cfg store e Hcfg Hnew Hset Htest).
  unfold result_of, trace_of, runContexts, cronCalls. cbn.
  rewrite !omap_app, !omap_logExtra by reflexivity. auto.
Qed.

Lemma C8_probe_failure_aborts_startup_witness :
  BackupOnStart config_on_start = true /\
  result_of (Run world2 producer_unreachable)
  = Returns (Some (ErrFmt "failed to connect to PostgreSQL"
                     (ErrNew "connection refused"))) /\
  runContexts (trace_of (Run world2 producer_unreachable)) = [] /\
  cronCalls (trace_of (Run world2 producer_unreachable)) = [].
Proof.
  split; [reflexivity|].
  apply (C8_probe_failure_aborts_startup world2 producer_unreachable
           producer_unreachable producer_unreachable producer_unreachable
           config_on_start local3 (ErrNew "connection refused"));
    reflexivity.
Defined.



(** * Further properties of the code *)

(** ** Strings: slices, prefixes and suffixes *)

Lemma string_app_nil (b : string) : "" +:+ b = b.
Proof. reflexivity. Qed.

Lemma string_app_cons (c : ascii) (a b : string) :
  String c a +:+ b = String c (a +:+ b).
Proof. reflexivity. Qed.

Lemma len_string_app (a b : string) :
  len_string (a +:+ b) = (len_string a + len_string b)%nat.
Proof.
  unfold len_string. induction a as [|c a IH].
  - reflexivity.
  - rewrite string_app_cons. cbn. rewrite IH. reflexivity.
Qed.

Lemma substring_0_app (a b : string) :
  String.substring 0 (len_string a) (a +:+ b) = a.
Proof.
  unfold len_string. induction a as [|c a IH].
  - rewrite string_app_nil. destruct b; reflexivity.
  - rewrite string_app_cons. cbn. rewrite IH. reflexivity.
Qed.

Lemma substring_skip_app (a b : string) (k m : nat) :
  String.substring (len_string a + k) m (a +:+ b) = String.substring k m b.
Proof.
  unfold len_string. induction a as [|c a IH].
  - reflexivity.
  - rewrite string_app_cons. cbn. exact IH.
Qed.

Lemma substring_all (s : string) :
  String.substring 0 (len_string s) s = s.
Proof.
  unfold len_string. induction s as [|c s IH]; cbn; [reflexivity|].
  rewrite IH. reflexivity.
Qed.

Lemma substring_split (s : string) (k : nat) :
  (k <= len_string s)%nat ->
  String.substring 0 k s +:+ String.substring k (len_string s - k) s = s.
Proof.
  unfold len_string. revert k. induction s as [|c s IH]; intros k Hk.
  - destruct k; cbn in *; [reflexivity|lia].
  - destruct k as [|k].
    + pose proof (substring_all s) as Ha. unfold len_string in Ha.
      cbn. rewrite Ha. reflexivity.
    + cbn in *. rewrite string_app_cons, IH by lia. reflexivity.
Qed.

(** [strings.HasPrefix] and [strings.HasSuffix] decide what their names
    say. *)
Lemma HasPrefix_spec (s prefix : string) :
  HasPrefix s prefix = true <-> exists rest, s = prefix +:+ rest.
Proof.
  unfold HasPrefix. rewrite andb_true_iff, Nat.leb_le, String.eqb_eq. split.
  - intros [Hle Heq].
    exists (String.substring (len_string prefix)
                             (len_string s - len_string prefix) s).
    rewrite <- Heq at 1. symmetry. apply substring_split. exact Hle.
  - intros [rest ->]. rewrite len_string_app, substring_0_app. split; [lia|reflexivity].
Qed.

Lemma HasSuffix_spec (s suffix : string) :
  HasSuffix s suffix = true <-> exists front, s = front +:+ suffix.
Proof.
  unfold HasSuffix. rewrite andb_true_iff, Nat.leb_le, String.eqb_eq. split.
  - intros [Hle Heq].
    exists (String.substring 0 (len_string s - len_string suffix) s).
    pose proof (substring_split s (len_string s - len_string suffix)) as Hs.
    replace (len_string s - (len_string s - len_string suffix))%nat
      with (len_string suffix) in Hs by lia.
    rewrite Heq in Hs. symmetry. apply Hs. lia.
  - intros [front ->]. rewrite len_string_app. split; [lia|].
    replace (len_string front + len_string suffix - len_string suffix)%nat
      with (len_string front + 0)%nat by lia.
    rewrite substring_skip_app. apply substring_all.
Qed.

Lemma string_app_assoc (a b c : string) : (a +:+ b) +:+ c = a +:+ (b +:+ c).
Proof.
  induction a as [|x a IH]; [reflexivity|].
  rewrite !string_app_cons, IH. reflexivity.
Qed.

Lemma HasSuffix_app_r (p r suffix : string) :
  (len_string suffix <= len_string r)%nat ->
  HasSuffix (p +:+ r) suffix = HasSuffix r suffix.
Proof.
  intros Hle. unfold HasSuffix. rewrite len_string_app.
  replace (len_string p + len_string r - len_string suffix)%nat
    with (len_string p + (len_string r - len_string suffix))%nat by lia.
  rewrite substring_skip_app.
  destruct (Nat.leb_spec (len_string suffix) (len_string r)); [|lia].
  destruct (Nat.leb_spec (len_string suffix) (len_string p + len_string r)); [|lia].
  reflexivity.
Qed.

(** ** [isBackupFile] *)

(** An extension of [isBackupFile] cannot start inside the prefix: a name
    with the prefix and one of the extensions has the extension after the
    prefix. *)
Lemma extension_after_prefix (r ext : string) :
  ext ∈ [".dump"; ".sql"; ".sql.gz"; ".tar"] ->
  HasSuffix ("pg-backup_" +:+ r) ext = true ->
  exists mid, r = mid +:+ ext.
Proof.
  intros Hext Hs.
  destruct (le_lt_dec (len_string ext) (len_string r)) as [Hle|Hlt].
  - rewrite HasSuffix_app_r in Hs by exact Hle. apply HasSuffix_spec. exact Hs.
  - exfalso. clear -Hext Hs Hlt.
    repeat (apply elem_of_cons in Hext as [->|Hext]);
      [..|apply elem_of_nil in Hext; contradiction];
      repeat (destruct r as [|? r];
              [vm_compute in Hs; discriminate|cbn in Hlt]);
      lia.
Qed.

(** X1.  A name is a backup file exactly when it is the prefix ["pg-backup_"],
    then any text (possibly none), then one of the extensions [.dump],
    [.sql], [.sql.gz], [.tar]. *)
Theorem isBackupFile_spec (name : string) :
  isBackupFile name = true <->
  exists mid ext,
    name = "pg-backup_" +:+ mid +:+ ext /\
    ext ∈ [".dump"; ".sql"; ".sql.gz"; ".tar"].
Proof.
  unfold isBackupFile. rewrite andb_true_iff, !orb_true_iff. split.
  - intros [[r ->]%HasPrefix_spec Hs].
    assert (exists ext, ext ∈ [".dump"; ".sql"; ".sql.gz"; ".tar"] /\
                        HasSuffix ("pg-backup_" +:+ r) ext = true)
      as (ext & Hext & Hsuf).
    { destruct Hs as [[[Hs|Hs]|Hs]|Hs];
        [exists ".dump"|exists ".sql"|exists ".sql.gz"|exists ".tar"];
        (split; [set_solver|exact Hs]). }
    destruct (extension_after_prefix r ext Hext Hsuf) as [mid ->].
    exists mid, ext. split; [reflexivity|exact Hext].
  - intros (mid & ext & -> & Hext). split.
    + apply HasPrefix_spec. eauto.
    + assert (HasSuffix ("pg-backup_" +:+ mid +:+ ext) ext = true) as Hs.
      { apply HasSuffix_spec. exists ("pg-backup_" +:+ mid).
        rewrite string_app_assoc. reflexivity. }
      repeat (apply elem_of_cons in Hext as [->|Hext]); auto.
      apply elem_of_nil in Hext. contradiction.
Qed.

(** ** [LocalStorage]: how [Delete], [Upload] and [List] compose *)




(** X3.  [Delete] reports a missing target: deleting again a name that has
    just been deleted fails with the wrapped error of [os.Remove], and the
    directory stays as the first [Delete] left it. *)
Theorem LocalStorage_Delete_twice
        (ctx : Context) (name : string) (s s1 : LocalStorage) :
  Delete ctx name s = (None, s1) ->
  Delete ctx name s1
  = (Some (ErrWrap "failed to delete backup"
             (ErrNew "no such file or directory")), s1).
Proof.
  intros Hdel.
  destruct (LocalStorage_Delete_cases ctx name s)
    as [[err Herr]|(s2 & Hok & Hdir & Hrd)]; [congruence|].
  assert (s2 = s1) as -> by congruence.
  cbn. unfold LocalStorage_Delete, Remove. rewrite Hdir, lookup_delete_eq.
  reflexivity.
Qed.

Lemma LocalStorage_Delete_twice_witness :
  Delete Background "pg-backup_1.dump" local2
  = (Some (ErrWrap "failed to delete backup"
             (ErrNew "no such file or directory")), local2).
Proof.
  apply (LocalStorage_Delete_twice Background "pg-backup_1.dump" local3 local2).
  reflexivity.
Defined.

(** A failed [Delete] changes nothing, and [Delete] fails exactly when
    the name is not in the directory or the operating system refuses to
    remove it. *)
Lemma LocalStorage_Delete_failure
        (ctx : Context) (name : string) (s : LocalStorage) :
  ((Delete ctx name s).1 <> None <->
   dir s !! name = None \/ removeErr s name <> None) /\
  ((Delete ctx name s).1 <> None -> (Delete ctx name s).2 = s).
Proof.
  cbn. unfold LocalStorage_Delete, Remove.
  destruct (dir s !! name) as [d|]; [|cbn; intuition congruence].
  destruct (removeErr s name) as [e|]; cbn; intuition congruence.
Qed.



(** X5.  [Upload] blocks for ever exactly when both files open, the context
    is never cancelled and the copy never completes; under a context that
    is never cancelled it otherwise returns what the copy returned. *)
Theorem LocalStorage_Upload_blocks_iff
        (run : UploadRun) (sourcePath backupName : string) (s : LocalStorage) :
  let out := (LocalStorage_Upload run sourcePath backupName s).1 in
  (out = UploadBlocks <->
   openErr run = None /\ createErr run = None /\
   ctxDone run = ReadyNever /\ copyDone run = ReadyNever) /\
  (openErr run = None -> createErr run = None ->
   ctxDone run = ReadyNever -> copyDone run <> ReadyNever ->
   out = UploadReturns
           (match copyErr run with
            | Some e => Some (ErrWrap "failed to copy file" e)
            | None => None
            end)).
Proof.
  unfold LocalStorage_Upload.
  destruct (openErr run) as [eo|]; [cbn; intuition congruence|].
  destruct (createErr run) as [ec|]; [cbn; intuition congruence|].
  destruct (ctxDone run), (copyDone run), (chosen run), (copyErr run);
    cbn; intuition congruence.
Qed.

Lemma LocalStorage_Upload_blocks_iff_witness :
  (LocalStorage_Upload upload_plain "/tmp/dump" "pg-backup_4.dump" local3).1
  = UploadReturns None.
Proof.
  destruct (LocalStorage_Upload_blocks_iff upload_plain "/tmp/dump"
              "pg-backup_4.dump" local3) as [_ Hret].
  apply Hret; try reflexivity. discriminate.
Defined.

(** ** The retention pass on a directory *)

Lemma local_pass_frame ctx (s : LocalStorage) rc :
  readDirErr s = None -> 0 <= rc -> len (listing s) <= int_max ->
  let s1 := state_of (applyRetentionPolicy ctx rc s) in
  readDirErr s1 = None /\
  (forall n, n ∉ scheduled (listing s) rc -> dir s1 !! n = dir s !! n) /\
  (failedDeletes (trace_of (applyRetentionPolicy ctx rc s)) = [] ->
   listing s1 = kept (listing s) rc).
Proof.
  intros Hr Hrc Hmax s1.
  pose proof (local_pass_state ctx s rc Hr Hrc Hmax) as Hst. fold s1 in Hst.
  destruct (local_deleteAll ctx (scheduled (listing s) rc) s)
    as (Hrd & _ & Hframe & _).
  destruct (local_pass_listing ctx s (scheduled (listing s) rc)
              (scheduled_subseteq (listing s) rc)) as (Hsub & Hin & Hgone).
  cbn zeta in Hrd, Hframe, Hsub, Hin, Hgone.
  rewrite <- Hst in Hrd, Hframe, Hsub, Hin, Hgone.
  split; [congruence|]. split; [exact Hframe|].
  intros Hnf.
  rewrite (pass_failedDeletes ctx rc s (listing s) s
             (LocalStorage_List_ok ctx s Hr) Hrc Hmax) in Hnf.
  specialize (Hgone Hnf).
  destruct (StronglySorted_take_drop string_lt (listing s)
              (Z.to_nat (len (listing s) - rc)) (listing_sorted s))
    as (_ & Hksorted & _).
  apply strictly_sorted_ext; [apply listing_sorted | exact Hksorted |].
  intros n. split.
  - intros Hn. pose proof (Hsub n Hn) as Hp.
    rewrite <- (scheduled_kept (listing s) rc) in Hp.
    apply elem_of_app in Hp as [Hs|Hk]; [|exact Hk].
    exfalso. exact (Hgone n Hs Hn).
  - intros Hn. apply Hin; [apply (kept_subseteq (listing s) rc); exact Hn|].
    apply kept_not_scheduled; [apply listing_NoDup | exact Hn].
Qed.

(** X6.  A pass removes nothing but artifacts it scheduled: every other entry
    of the directory, in particular every file whose name does not match
    the naming convention and every sub-directory, is there afterwards as
    before, whether the [Delete] calls succeed or fail. *)
Theorem local_pass_touches_only_scheduled
        (ctx : Context) (s : LocalStorage) (rc : Z) :
  readDirErr s = None -> 0 <= rc -> len (listing s) <= int_max ->
  let s1 := state_of (applyRetentionPolicy ctx rc s) in
  (forall n, n ∉ scheduled (listing s) rc -> dir s1 !! n = dir s !! n) /\
  (forall n, isBackupFile n = false \/ dir s !! n = Some true ->
             dir s1 !! n = dir s !! n).
Proof.
  intros Hr Hrc Hmax s1.
  destruct (local_pass_frame ctx s rc Hr Hrc Hmax) as (_ & Hframe & _).
  split; [exact Hframe|].
  intros n Hn. apply Hframe. intros Hs.
  apply (scheduled_subseteq (listing s) rc), elem_of_listing in Hs as [Hd Hb].
  destruct Hn as [Hn|Hn]; congruence.
Qed.

Lemma local_pass_touches_only_scheduled_witness :
  dir (state_of (applyRetentionPolicy Background 0 local3)) !! "readme.txt"
  = Some false.
Proof.
  destruct (local_pass_touches_only_scheduled Background local3 0)
    as [_ Hforeign]; [reflexivity|lia|vm_compute; discriminate|].
  rewrite Hforeign; [reflexivity|]. left. reflexivity.
Defined.

(** X7.  A second pass right after a pass in which no [Delete] failed has
    nothing to do: it calls [Delete] on no name, returns [nil] and leaves
    the directory as it is. *)
Theorem local_pass_twice (ctx : Context) (s : LocalStorage) (rc : Z) :
  readDirErr s = None -> 0 <= rc -> len (listing s) <= int_max ->
  failedDeletes (trace_of (applyRetentionPolicy ctx rc s)) = [] ->
  let s1 := state_of (applyRetentionPolicy ctx rc s) in
  let r2 := applyRetentionPolicy ctx rc s1 in
  result_of r2 = Returns None /\
  deleteCalls (trace_of r2) = [] /\
  state_of r2 = s1.
Proof.
  intros Hr Hrc Hmax Hnf s1 r2.
  destruct (local_pass_frame ctx s rc Hr Hrc Hmax) as (Hrd & _ & Hafter).
  fold s1 in Hrd, Hafter. specialize (Hafter Hnf).
  assert (Hle : len (listing s1) <= rc).
  { rewrite Hafter, kept_length by exact Hrc. lia. }
  unfold r2.
  rewrite (applyRetentionPolicy_within ctx rc s1 (listing s1) s1
             (LocalStorage_List_ok ctx s1 Hrd) Hle).
  repeat split.
Qed.

Lemma local_pass_twice_witness :
  let s1 := state_of (applyRetentionPolicy Background 1 local3) in
  deleteCalls (trace_of (applyRetentionPolicy Background 1 local3))
  = ["pg-backup_1.dump"; "pg-backup_2.dump"] /\
  deleteCalls (trace_of (applyRetentionPolicy Background 1 s1)) = [].
Proof.
  split; [vm_compute; reflexivity|].
  destruct (local_pass_twice Background local3 1) as (_ & Hcalls & _);
    [reflexivity|lia|vm_compute; discriminate|vm_compute; reflexivity|].
  exact Hcalls.
Defined.

(** X8.  With a retention count of at least one, a pass never removes the
    newest artifact (the lexicographically largest name listed), whether
    the [Delete] calls succeed or fail. *)
Theorem local_pass_keeps_latest
        (ctx : Context) (s : LocalStorage) (rc : Z) (latest : string) :
  readDirErr s = None -> 1 <= rc -> len (listing s) <= int_max ->
  latest ∈ listing s ->
  (forall n, n ∈ listing s -> String.le n latest) ->
  latest ∈ listing (state_of (applyRetentionPolicy ctx rc s)) /\
  (latest ∉ deleteCalls (trace_of (applyRetentionPolicy ctx rc s))).
Proof.
  intros Hr Hrc Hmax Hin Hmaxn.
  assert (Hns : latest ∉ scheduled (listing s) rc).
  { intros Hs.
    destruct (StronglySorted_take_drop string_lt (listing s)
                (Z.to_nat (len (listing s) - rc)) (listing_sorted s))
      as (_ & _ & Hcross).
    assert (Hk : exists k, k ∈ kept (listing s) rc).
    { destruct (kept (listing s) rc) as [|k l] eqn:Hkept.
      - exfalso.
        assert (Hl : len (kept (listing s) rc) = Z.min (len (listing s)) rc)
          by (apply kept_length; lia).
        rewrite Hkept in Hl. unfold len at 1 in Hl. cbn in Hl.
        assert (len (scheduled (listing s) rc) = 0) as Hz.
        { rewrite scheduled_length by lia. lia. }
        destruct (scheduled (listing s) rc); [inversion Hs|].
        unfold len in Hz. cbn in Hz. lia.
      - exists k. left. }
    destruct Hk as [k Hk].
    destruct (Hcross latest k Hs Hk) as [_ Hnle]. apply Hnle.
    apply Hmaxn. apply (kept_subseteq (listing s) rc). exact Hk. }
  split.
  - destruct (local_pass_frame ctx s rc Hr) as (_ & Hframe & _); [lia|exact Hmax|].
    apply elem_of_listing. rewrite (Hframe latest Hns).
    apply elem_of_listing. exact Hin.
  - rewrite (pass_deleteCalls ctx rc s (listing s) s
               (LocalStorage_List_ok ctx s Hr)) by (lia || exact Hmax).
    exact Hns.
Qed.

Lemma local_pass_keeps_latest_witness :
  "pg-backup_3.dump"
    ∈ listing (state_of (applyRetentionPolicy Background 1 local3)).
Proof.
  apply (local_pass_keeps_latest Background local3 1 "pg-backup_3.dump").
  - reflexivity.
  - lia.
  - vm_compute. discriminate.
  - apply elem_of_listing. split; vm_compute; reflexivity.
  - intros n [Hd Hb]%elem_of_listing.
    assert (Hn : n ∈ (map_to_list (dir local3)).*1).
    { apply list_elem_of_fmap. exists (n, false). split; [reflexivity|].
      apply elem_of_map_to_list. exact Hd. }
    vm_compute in Hn.
    repeat (apply elem_of_cons in Hn as [->|Hn]); try (vm_compute; exact I);
      try (vm_compute in Hb; discriminate).
    apply elem_of_nil in Hn. contradiction.
Defined.

(** ** A negative retention count *)

Section Overrun.
Context {St : Type} `{!Storage St}.

(** The loop asked for more iterations than names remain: it deletes the
    names that remain, then indexes past the slice and panics. *)
Lemma deleteLoop_overrun (ctx : Context) (backups : list string) n i (s : St) :
  0 <= i -> (Z.to_nat i <= length backups)%nat ->
  (length backups < Z.to_nat i + n)%nat ->
  deleteLoop ctx backups n i s
  = (Panics "index out of range",
     (deleteAll ctx (drop (Z.to_nat i) backups) s).1,
     (deleteAll ctx (drop (Z.to_nat i) backups) s).2).
Proof.
  revert i s. induction n as [|n IH]; intros i s Hi Hle Hlt; [lia|].
  cbn [deleteLoop]. unfold mbind, M_bind, index.
  destruct (Z.ltb_spec i 0) as [?|_]; [lia|].
  destruct (backups !! Z.to_nat i) as [x|] eqn:Hx.
  - rewrite (drop_S _ _ _ Hx). cbn [deleteAll].
    apply lookup_lt_Some in Hx.
    cbn. unfold callDelete. destruct (Delete ctx x s) as [r s1].
    replace (S (Z.to_nat i)) with (Z.to_nat (i + 1)) by lia.
    destruct r; cbn; rewrite (IH (i + 1) s1) by lia;
      destruct (deleteAll _ _ s1) as [s2 tr]; reflexivity.
  - apply lookup_ge_None in Hx. rewrite drop_ge by lia. reflexivity.
Qed.

(** X9.  With a negative retention count (and [len(backups) - retentionCount]
    within [int]) a pass whose [List] succeeds calls [Delete] on every
    listed name and then panics with an index out of range. *)
Theorem negative_retentionCount_deletes_all_then_panics
        (ctx : Context) (s s1 : St) (rc : Z) (backups : list string) :
  List ctx s = (inl backups, s1) ->
  rc < 0 -> len backups - rc <= int_max ->
  let r := applyRetentionPolicy ctx rc s in
  result_of r = Panics "index out of range" /\
  deleteCalls (trace_of r) = backups /\
  state_of r = (deleteAll ctx backups s1).1.
Proof.
  intros HL Hrc Hmax r. unfold r.
  unfold applyRetentionPolicy, mbind, M_bind, callList, emit.
  rewrite HL. unfold len in *.
  destruct (Z.leb_spec (Z.of_nat (length backups)) rc) as [?|_]; [lia|].
  unfold int_sub. rewrite wrap_int_id by (unfold int_min, int_max in *; lia).
  rewrite deleteLoop_overrun by lia.
  change (Z.to_nat 0) with 0%nat. rewrite drop_0.
  pose proof (deleteAll_deleteCalls ctx backups s1) as Hcalls.
  destruct (deleteAll ctx backups s1) as [s2 tr]. cbn in *.
  unfold result_of, state_of, trace_of. cbn. auto.
Qed.

End Overrun.

Lemma negative_retentionCount_deletes_all_then_panics_witness :
  let r := applyRetentionPolicy Background (-1) local3 in
  result_of r = Panics "index out of range" /\
  deleteCalls (trace_of r)
  = ["pg-backup_1.dump"; "pg-backup_2.dump"; "pg-backup_3.dump"].
Proof.
  destruct (negative_retentionCount_deletes_all_then_panics Background
              local3 local3 (-1)
              ["pg-backup_1.dump"; "pg-backup_2.dump"; "pg-backup_3.dump"])
    as (Hres & Hcalls & _).
  - vm_compute. reflexivity.
  - lia.
  - vm_compute. discriminate.
  - auto.
Defined.

(** ** The S3 backend: keys and names *)

Lemma S3Storage_List_unfold ctx (s : S3Storage) :
  List ctx s
  = match collectPages (ListObjectsV2 s (S3Storage_listPrefix s)) [] with
    | inr err => (inr err, s)
    | inl backups => (inl (sort_Strings backups), s)
    end.
Proof. reflexivity. Qed.

Lemma getKey_eq_listPrefix (s : S3Storage) (backupName : string) :
  S3Storage_getKey s backupName = S3Storage_listPrefix s +:+ backupName.
Proof.
  unfold S3Storage_getKey, S3Storage_listPrefix, TrimSuffix.
  destruct (String.eqb_spec (backupPrefix s) "") as [->|Hne]; [reflexivity|].
  cbn [negb andb].
  destruct (HasSuffix (backupPrefix s) "/") eqn:Hs; cbn [negb].
  - apply HasSuffix_spec in Hs as [front Hfront]. rewrite Hfront.
    rewrite len_string_app.
    replace (len_string front + len_string "/" - len_string "/")%nat
      with (len_string front) by lia.
    rewrite substring_0_app, string_app_assoc. reflexivity.
  - rewrite string_app_assoc. reflexivity.
Qed.

Lemma listPrefix_shape (s : S3Storage) :
  S3Storage_listPrefix s = "" \/
  exists front, S3Storage_listPrefix s = front +:+ "/".
Proof.
  unfold S3Storage_listPrefix.
  destruct (String.eqb_spec (backupPrefix s) "") as [->|?]; [left; reflexivity|].
  cbn [negb andb].
  destruct (HasSuffix (backupPrefix s) "/") eqn:Hs; cbn [negb].
  - right. apply HasSuffix_spec. exact Hs.
  - right. eauto.
Qed.

(** X10.  [getKey] and [List] agree on the prefix: the key of a backup name is
    the prefix [List] queries followed by the name, whether
    [backupPrefix] is empty, ends in a slash or does not; so the key is
    among the keys the query of [List] covers. *)
Theorem S3Storage_getKey_listPrefix (s : S3Storage) (backupName : string) :
  S3Storage_getKey s backupName = S3Storage_listPrefix s +:+ backupName /\
  HasPrefix (S3Storage_getKey s backupName) (S3Storage_listPrefix s) = true.
Proof.
  split; [apply getKey_eq_listPrefix|].
  rewrite getKey_eq_listPrefix. apply HasPrefix_spec. eauto.
Qed.

Lemma list_ascii_of_string_app (a b : string) :
  String.list_ascii_of_string (a +:+ b)
  = (String.list_ascii_of_string a ++ String.list_ascii_of_string b)%list.
Proof.
  induction a as [|c a IH]; [reflexivity|].
  rewrite string_app_cons. cbn. rewrite IH. reflexivity.
Qed.

Lemma afterLastSeparator_plain (n cur : list ascii) :
  Forall (fun c => isPathSeparator c = false) n ->
  afterLastSeparator n cur = (cur ++ n)%list.
Proof.
  intros Hn. revert cur. induction Hn as [|c n Hc _ IH]; intros cur; cbn.
  - rewrite app_nil_r. reflexivity.
  - rewrite Hc, IH, <- app_assoc. reflexivity.
Qed.

Lemma afterLastSeparator_app_sep (f n cur : list ascii) :
  afterLastSeparator (f ++ "/"%char :: n) cur = afterLastSeparator n [].
Proof.
  revert cur. induction f as [|c f IH]; intros cur; cbn.
  - reflexivity.
  - destruct (isPathSeparator c); apply IH.
Qed.

Lemma dropSeparators_plain_end (l n : list ascii) :
  n <> [] -> Forall (fun c => isPathSeparator c = false) n ->
  reverse (dropSeparators (reverse (l ++ n))) = (l ++ n)%list.
Proof.
  intros Hne Hn.
  destruct (exists_last Hne) as (n' & c & ->).
  apply Forall_app in Hn as [_ Hc].
  inversion Hc as [|c' l' Hc' _]; subst.
  rewrite app_assoc, reverse_snoc. cbn [dropSeparators]. rewrite Hc'.
  rewrite reverse_cons, reverse_involutive. reflexivity.
Qed.

Lemma Base_after_prefix (pre name : string) :
  pre = "" \/ (exists front, pre = front +:+ "/") ->
  plainName name ->
  Base (pre +:+ name) = name.
Proof.
  intros Hpre [Hne Hplain].
  assert (Hnil : String.list_ascii_of_string name <> []).
  { destruct name; [congruence|discriminate]. }
  unfold Base.
  destruct (String.eqb_spec (pre +:+ name) "") as [He|_].
  { exfalso. apply (f_equal String.list_ascii_of_string) in He.
    rewrite list_ascii_of_string_app in He. cbn in He.
    apply app_eq_nil in He as [_ He]. contradiction. }
  rewrite list_ascii_of_string_app, dropSeparators_plain_end by assumption.
  assert (Hlast : afterLastSeparator
                    (String.list_ascii_of_string pre
                       ++ String.list_ascii_of_string name) []
                  = String.list_ascii_of_string name).
  { destruct Hpre as [->|[front ->]].
    - cbn. apply afterLastSeparator_plain. exact Hplain.
    - rewrite list_ascii_of_string_app. cbn. rewrite <- app_assoc. cbn.
      rewrite afterLastSeparator_app_sep. apply afterLastSeparator_plain.
      exact Hplain. }
  rewrite Hlast.
  destruct (String.list_ascii_of_string name) eqn:Hl; [congruence|].
  rewrite <- Hl. apply String.string_of_list_ascii_of_string.
Qed.

(** X11.  [List] gives back the name a key was made from: for a name without
    path separator, the base name of its key is the name. *)
Theorem S3Storage_Base_getKey (s : S3Storage) (backupName : string) :
  plainName backupName ->
  Base (S3Storage_getKey s backupName) = backupName.
Proof.
  intros Hplain. rewrite getKey_eq_listPrefix.
  apply Base_after_prefix; [apply listPrefix_shape | exact Hplain].
Qed.

Lemma S3Storage_Base_getKey_witness :
  Base (S3Storage_getKey s3_daily "pg-backup_3.dump") = "pg-backup_3.dump".
Proof.
  apply S3Storage_Base_getKey. split; [discriminate|].
  repeat constructor.
Defined.

(** ** [S3Storage.List] *)

Lemma collectPage_app (acc : list string) (contents : list (option string)) :
  collectPage acc contents = (acc ++ collectPage [] contents)%list.
Proof.
  unfold collectPage. revert acc.
  induction contents as [|obj contents IH]; intros acc; cbn [foldl].
  - rewrite app_nil_r. reflexivity.
  - rewrite IH. symmetry. rewrite IH. symmetry.
    destruct obj as [key|]; [|reflexivity].
    destruct (isBackupFile (Base key)); cbn; [|reflexivity].
    rewrite <- app_assoc. reflexivity.
Qed.

Lemma collectPage_keys (keys : list string) :
  collectPage [] (Some <$> keys)
  = filter (fun n => isBackupFile n = true) (Base <$> keys).
Proof.
  induction keys as [|key keys IH]; [reflexivity|].
  cbn [fmap list_fmap]. unfold collectPage in *. cbn [foldl].
  fold (collectPage
          (if isBackupFile (Base key) then ([] ++ [Base key])%list else [])
          (Some <$> keys)).
  rewrite collectPage_app. unfold collectPage. rewrite IH.
  rewrite filter_cons.
  destruct (isBackupFile (Base key)) eqn:E.
  - rewrite decide_True by reflexivity. reflexivity.
  - rewrite decide_False by discriminate. reflexivity.
Qed.

Lemma S3Storage_List_ok ctx (s : S3Storage) :
  listObjectsErr s = None ->
  List ctx s
  = (inl (sort_Strings
            (filter (fun n => isBackupFile n = true)
                    (Base <$> filter (fun k => HasPrefix k (S3Storage_listPrefix s) = true)
                                     (objects s)))), s).
Proof.
  intros Hok. rewrite S3Storage_List_unfold. unfold ListObjectsV2. rewrite Hok.
  cbn [collectPages]. rewrite collectPage_keys. reflexivity.
Qed.

(** X12.  When the service answers, [S3Storage.List] returns, in ascending
    order, the base names that match the naming convention of the objects
    whose key starts with the queried prefix, one entry per object; it
    leaves the bucket as it is. *)
Theorem S3Storage_List_spec (ctx : Context) (s : S3Storage) :
  listObjectsErr s = None ->
  exists backups,
    List ctx s = (inl backups, s) /\
    Sorted String.le backups /\
    backups ≡ₚ
      filter (fun n => isBackupFile n = true)
             (Base <$> filter (fun k => HasPrefix k (S3Storage_listPrefix s) = true)
                              (objects s)).
Proof.
  intros Hok. eexists. split; [apply S3Storage_List_ok; exact Hok|].
  split; [apply sort_Strings_Sorted | apply sort_Strings_Permutation].
Qed.

Lemma S3Storage_List_spec_witness :
  exists backups,
    List Background s3_daily = (inl backups, s3_daily) /\
    Sorted String.le backups /\
    backups ≡ₚ ["pg-backup_2.dump"; "pg-backup_1.dump"].
Proof.
  destruct (S3Storage_List_spec Background s3_daily) as (backups & HL & Hs & Hp);
    [reflexivity|].
  exists backups. split; [exact HL|]. split; [exact Hs|].
  rewrite Hp. vm_compute. reflexivity.
Defined.

(** X13.  An object stored under the key [getKey] gives a backup name is
    listed under that name, when the name matches the naming convention and
    has no path separator: [List] finds what [Upload] and [Delete]
    address. *)
Theorem S3Storage_lists_own_keys
        (ctx : Context) (s : S3Storage) (backupName : string) :
  listObjectsErr s = None ->
  plainName backupName -> isBackupFile backupName = true ->
  S3Storage_getKey s backupName ∈ objects s ->
  exists backups, List ctx s = (inl backups, s) /\ backupName ∈ backups.
Proof.
  intros Hok Hplain Hb Hin.
  eexists. split; [apply S3Storage_List_ok; exact Hok|].
  apply sort_Strings_elem_of, list_elem_of_filter. split; [exact Hb|].
  apply list_elem_of_fmap. exists (S3Storage_getKey s backupName).
  split.
  - symmetry. rewrite getKey_eq_listPrefix.
    apply Base_after_prefix; [apply listPrefix_shape | exact Hplain].
  - apply list_elem_of_filter. split; [|exact Hin].
    rewrite getKey_eq_listPrefix. apply HasPrefix_spec. eauto.
Qed.

Lemma S3Storage_lists_own_keys_witness :
  exists backups,
    List Background s3_daily = (inl backups, s3_daily) /\
    "pg-backup_1.dump" ∈ backups.
Proof.
  apply (S3Storage_lists_own_keys Background s3_daily "pg-backup_1.dump").
  - reflexivity.
  - split; [discriminate|repeat constructor].
  - reflexivity.
  - vm_compute. set_solver.
Defined.

(** X14.  The page loop of [List]: the names of the pages are gathered in page
    order; an error on a page ends the listing with that error, wrapped,
    and the names gathered from the pages before it are not returned. *)
Theorem collectPages_spec
        (good : list (list (option string))) (acc : list string) :
  collectPages (inl <$> good) acc = inl (collectPage acc (concat good)) /\
  forall err rest,
    collectPages ((inl <$> good) ++ inr err :: rest) acc
    = inr (ErrWrap "failed to list S3 objects" err).
Proof.
  revert acc. induction good as [|page good IH]; intros acc.
  - split; reflexivity.
  - destruct (IH (collectPage acc page)) as [Hok Herr].
    cbn [fmap list_fmap concat collectPages app]. split.
    + rewrite Hok. unfold collectPage. rewrite foldl_app. reflexivity.
    + exact Herr.
Qed.

(** ** The service loop: the ways [Run] ends *)

Section RunPaths.
Context {Store B : Type} `{!Storage Store} `{!Backup.t Store B}.
Variable w : World Store.

Lemma Run_config_fails (b b1 : B) err :
  Backup.Config b = (inr err, b1) ->
  Run w b
  = (Returns (Some (ErrFmt "failed to load configuration" err)), b1,
     [RLog (LogStarting (Backup.Name b)); RConfig]).
Proof.
  intros Hcfg.
  unfold Run, mbind, M_bind, getName, emit, callConfig. rewrite Hcfg.
  reflexivity.
Qed.

Lemma Run_New_fails (b b1 : B) cfg err :
  Backup.Config b = (inl cfg, b1) ->
  New w cfg = inr err ->
  Run w b
  = (Returns (Some (ErrFmt "failed to initialize storage" err)), b1,
     [RLog (LogStarting (Backup.Name b)); RConfig; RLog LogConfigLoaded]
       ++ ((fun v => RLog (LogExtra v)) <$> Backup.ExtraConfigLogInfo b1)
       ++ [RLog (LogSchedule (BackupCron cfg));
           RLog (LogStorageType (StorageType cfg));
           RLog (LogRetention (RetentionCount cfg));
           RNew])%list.
Proof.
  intros Hcfg Hnew.
  unfold Run, mbind, M_bind, getName, emit, callConfig, getExtraConfigLogInfo.
  rewrite Hcfg. rewrite logExtra_run. rewrite Hnew. reflexivity.
Qed.

Lemma Run_SetStorage_fails (b b1 b2 : B) cfg store err :
  Backup.Config b = (inl cfg, b1) ->
  New w cfg = inl store ->
  Backup.SetStorage store b1 = (Some err, b2) ->
  Run w b
  = (Returns (Some (ErrFmt "failed to set storage" err)), b2,
     [RLog (LogStarting (Backup.Name b)); RConfig; RLog LogConfigLoaded]
       ++ ((fun v => RLog (LogExtra v)) <$> Backup.ExtraConfigLogInfo b1)
       ++ [RLog (LogSchedule (BackupCron cfg));
           RLog (LogStorageType (StorageType cfg));
           RLog (LogRetention (RetentionCount cfg));
           RNew;
           RLog (LogStorageInitialized (Type_ store));
           RSetStorage])%list.
Proof.
  intros Hcfg Hnew Hset.
  unfold Run, mbind, M_bind, getName, emit, callConfig,
    getExtraConfigLogInfo, callSetStorage.
  rewrite Hcfg. rewrite logExtra_run. rewrite Hnew. rewrite Hset. reflexivity.
Qed.

Lemma Run_cron_fails (b b1 b2 b3 : B) cfg store err :
  Backup.Config b = (inl cfg, b1) ->
  New w cfg = inl store ->
  Backup.SetStorage store b1 = (None, b2) ->
  Backup.TestConnection Background b2 = (None, b3) ->
  cronParseErr w (BackupCron cfg) = Some err ->
  let r := Run w b in
  result_of r = Returns (Some (ErrFmt "failed to add cron job" err)) /\
  runContexts (trace_of r) = (if BackupOnStart cfg then [Background] else []) /\
  runFailureLogs (trace_of r) = runFailures (trace_of r) /\
  cronCalls (trace_of r) = [RCronAddFunc (BackupCron cfg) (Some err)] /\
  probeResults (trace_of r) = [None].
Proof.
  intros Hcfg Hnew Hset Htest Hcron r. unfold r.
  unfold Run, mbind, M_bind, getName, emit, callConfig,
    getExtraConfigLogInfo, callSetStorage, callTestConnection, callRun.
  rewrite Hcfg. rewrite logExtra_run. rewrite Hnew. rewrite Hset.
  rewrite Htest. rewrite Hcron.
  unfold result_of, trace_of, runContexts, runFailureLogs, runFailures,
    cronCalls, probeResults.
  destruct (BackupOnStart cfg).
  - destruct (Backup.Run Background b3) as [[e0|] b4]; cbn;
      rewrite !omap_app, !omap_logExtra by reflexivity; cbn; auto.
  - cbn. rewrite !omap_app, !omap_logExtra by reflexivity. cbn. auto.
Qed.

End RunPaths.

(** X15.  A failure of a startup step before the connection probe (loading the
    configuration, constructing the storage, [SetStorage]) ends [Run] with
    the error of that step: no connection probe has been made, no backup
    run, no call on the scheduler. *)
Theorem Run_startup_step_failure
        {Store B : Type} `{!Storage Store} `{!Backup.t Store B}
        (w : World Store) (b : B) :
  let r := Run w b in
  (forall err b1,
      Backup.Config b = (inr err, b1) ->
      result_of r = Returns (Some (ErrFmt "failed to load configuration" err)) /\
      probeResults (trace_of r) = [] /\ runContexts (trace_of r) = [] /\
      cronCalls (trace_of r) = []) /\
  (forall cfg err b1,
      Backup.Config b = (inl cfg, b1) -> New w cfg = inr err ->
      result_of r = Returns (Some (ErrFmt "failed to initialize storage" err)) /\
      probeResults (trace_of r) = [] /\ runContexts (trace_of r) = [] /\
      cronCalls (trace_of r) = []) /\
  (forall cfg store err b1 b2,
      Backup.Config b = (inl cfg, b1) -> New w cfg = inl store ->
      Backup.SetStorage store b1 = (Some err, b2) ->
      result_of r = Returns (Some (ErrFmt "failed to set storage" err)) /\
      probeResults (trace_of r) = [] /\ runContexts (trace_of r) = [] /\
      cronCalls (trace_of r) = []).
Proof.
  intros r. unfold r. split; [|split].
  - intros err b1 Hcfg. rewrite (Run_config_fails w b b1 err Hcfg). auto.
  - intros cfg err b1 Hcfg Hnew.
    rewrite (Run_New_fails w b b1 cfg err Hcfg Hnew).
    unfold result_of, trace_of, probeResults, runContexts, cronCalls. cbn.
    rewrite !omap_app, !omap_logExtra by reflexivity. auto.
  - intros cfg store err b1 b2 Hcfg Hnew Hset.
    rewrite (Run_SetStorage_fails w b b1 b2 cfg store err Hcfg Hnew Hset).
    unfold result_of, trace_of, probeResults, runContexts, cronCalls. cbn.
    rewrite !omap_app, !omap_logExtra by reflexivity. auto.
Qed.

Lemma Run_startup_step_failure_witness :
  result_of (Run world2 producer_no_config)
  = Returns (Some (ErrFmt "failed to load configuration"
                     (ErrNew "BACKUP_CRON is required"))) /\
  probeResults (trace_of (Run world2 producer_no_config)) = [].
Proof.
  destruct (Run_startup_step_failure world2 producer_no_config) as [Hcfg _].
  destruct (Hcfg (ErrNew "BACKUP_CRON is required") producer_no_config eq_refl)
    as (Hres & Hprobe & _).
  auto.
Defined.

(** X16.  A schedule expression that does not parse is found only after the
    startup run: when run-on-startup is enabled, [Run] has already called
    [b.Run] once (and logged its failure, if any) when it returns the
    error; the scheduler is never started and no scheduled run takes
    place. *)
Theorem Run_bad_schedule
        {Store B : Type} `{!Storage Store} `{!Backup.t Store B}
        (w : World Store) (b b1 b2 b3 : B) (cfg : Config) (store : Store)
        (err : error) :
  Backup.Config b = (inl cfg, b1) ->
  New w cfg = inl store ->
  Backup.SetStorage store b1 = (None, b2) ->
  Backup.TestConnection Background b2 = (None, b3) ->
  cronParseErr w (BackupCron cfg) = Some err ->
  let r := Run w b in
  result_of r = Returns (Some (ErrFmt "failed to add cron job" err)) /\
  runContexts (trace_of r) = (if BackupOnStart cfg then [Background] else []) /\
  runFailureLogs (trace_of r) = runFailures (trace_of r) /\
  cronCalls (trace_of r) = [RCronAddFunc (BackupCron cfg) (Some err)].
Proof.
  intros Hcfg Hnew Hset Htest Hcron r.
  destruct (Run_cron_fails w b b1 b2 b3 cfg store err Hcfg Hnew Hset Htest Hcron)
    as (Hres & Hctx & Hlog & Hcalls & _).
  auto.
Qed.

Lemma Run_bad_schedule_witness :
  let r := Run world_bad_cron producer_failing in
  result_of r = Returns (Some (ErrFmt "failed to add cron job"
                                 (ErrNew "expected exactly 5 fields"))) /\
  runContexts (trace_of r) = [Background] /\
  runFailureLogs (trace_of r) = [ErrNew "pg_dump failed"].
Proof.
  destruct (Run_bad_schedule world_bad_cron producer_failing producer_failing
              producer_failing producer_failing config_on_start local3
              (ErrNew "expected exactly 5 fields"))
    as (Hres & Hctx & Hlog & _); try reflexivity.
  split; [exact Hres|]. split; [exact Hctx|].
  rewrite Hlog. vm_compute. reflexivity.
Defined.



(** X18.  The runs the schedule triggers all execute under
    [context.WithTimeout(context.Background(), BackupTimeout minutes)]: the
    contexts [b.Run] is called with are that one, once per firing, after
    the context of the startup run when there is one.  Without a startup
    run every run has a deadline. *)
Theorem Run_scheduled_runs_have_timeout
        {Store B : Type} `{!Storage Store} `{!Backup.t Store B}
        (w : World Store) (b b1 b2 b3 : B) (cfg : Config) (store : Store) :
  Backup.Config b = (inl cfg, b1) ->
  New w cfg = inl store ->
  Backup.SetStorage store b1 = (None, b2) ->
  Backup.TestConnection Background b2 = (None, b3) ->
  cronParseErr w (BackupCron cfg) = None ->
  let contexts := runContexts (trace_of (Run w b)) in
  contexts
  = ((if BackupOnStart cfg then [Background] else [])
       ++ replicate (ticks w)
                    (WithTimeout Background (minutes (BackupTimeout cfg))))%list /\
  (BackupOnStart cfg = false ->
   Forall (fun ctx => hasDeadline ctx = true) contexts).
Proof.
  intros Hcfg Hnew Hset Htest Hcron contexts.
  destruct (Run_ready w b b1 b2 b3 cfg store Hcfg Hnew Hset Htest Hcron)
    as (_ & Hctx & _).
  fold contexts in Hctx. split; [exact Hctx|].
  intros Hoff. rewrite Hctx, Hoff. cbn [app].
  apply Forall_forall. intros ctx [-> _]%elem_of_replicate. reflexivity.
Qed.

Lemma Run_scheduled_runs_have_timeout_witness :
  Forall (fun ctx => hasDeadline ctx = true)
         (runContexts (trace_of (Run world2 producer_scheduled_only))).
Proof.
  destruct (Run_scheduled_runs_have_timeout world2 producer_scheduled_only
              producer_scheduled_only producer_scheduled_only
              producer_scheduled_only config_scheduled_only local3)
    as [_ Hall]; try reflexivity.
  apply Hall. reflexivity.
Defined.

(** X19.  [time.Duration(n) * time.Minute] is [n] minutes in nanoseconds as
    long as [0 <= n <= 153722867]; beyond, the [int64] product overflows. *)
Theorem minutes_no_overflow (n : Z) :
  0 <= n <= 153722867 ->
  minutes n = n * 60000000000 /\ 0 <= minutes n <= int_max.
Proof.
  intros Hn. unfold minutes, Minute.
  rewrite (wrap_int_id n) by (unfold int_min, int_max; lia).
  rewrite wrap_int_id by (unfold int_min, int_max; lia).
  unfold int_max. lia.
Qed.

Lemma minutes_no_overflow_witness :
  minutes 30 = 30 * 60000000000 /\ 0 <= minutes 30 <= int_max.
Proof. apply minutes_no_overflow. lia. Defined.

Example minutes_overflow : minutes 153722868 < 0.
Proof. vm_compute. reflexivity. Qed.
